(** * The Loader side of the Playground/Loader protocol

    A shallow embedding of
    [packages/react-cosmos-loader/src/connect-loader.js] and the
    properties of its bind / select / edit / update state machine.

    Modelling conventions.
    - A JavaScript object is the list of its own enumerable properties, in
      enumeration order.  Reading a property takes the first entry with that
      key; a well-formed object has no repeated key ([wf_obj]).  What a
      property read finds on the prototype chain, beyond the own properties,
      is a parameter ([Chain]); the numeric-keys-first enumeration rule is
      not modelled.
    - The three module-level variables ([unbindPrev], [selected],
      [hasFixtureUpdate]) and the listeners registered on [window] are the
      fields of [World].  A function value stored in a variable is the number
      of the [connectLoader] call that created it.
    - What the module does to the outside (messages posted to the parent
      frame, contexts mounted, console errors, listener registrations, hook
      calls) is emitted as a list of [Event]s, in program order.
    - An [async] function is run to completion: handlers do not interleave.
      The promise of [mount()] is taken to resolve. *)

From Stdlib Require Import List String ZArith Bool Arith Lia DecimalString.
Import ListNotations.
Local Open Scope string_scope.
Local Open Scope list_scope.

Set Implicit Arguments.
Set Warnings "-register-all".

(** ** JavaScript values and objects *)

Inductive value : Type :=
| VUndefined
| VNull
| VBoolean (b : bool)
| VNumber (n : Z)
| VString (s : string)
| VFunction (id : nat)
| VObject (props : list (string * value)).

Definition obj : Type := list (string * value).

(** Whether a value passes a JavaScript condition. *)
Definition truthy (v : value) : bool :=
  match v with
  | VUndefined | VNull => false
  | VBoolean b => b
  | VNumber n => negb (Z.eqb n 0)
  | VString s => negb (String.eqb s "")
  | VFunction _ | VObject _ => true
  end.

Module Props.
Section WithValue.
Variable V : Type.

(** [o[k]], as an option: [None] is [undefined]. *)
Fixpoint get (o : list (string * V)) (k : string) : option V :=
  match o with
  | [] => None
  | (k', v) :: rest => if String.eqb k k' then Some v else get rest k
  end.

(** [k in o] *)
Definition has (o : list (string * V)) (k : string) : bool :=
  match get o k with Some _ => true | None => false end.

(** [o[k] = v]: an existing property keeps its place, a new one goes last. *)
Fixpoint set (o : list (string * V)) (k : string) (v : V) : list (string * V) :=
  match o with
  | [] => [(k, v)]
  | (k', v') :: rest =>
      if String.eqb k k' then (k', v) :: rest else (k', v') :: set rest k v
  end.

(** [Object.keys(o)] *)
Definition keys (o : list (string * V)) : list string := map fst o.
End WithValue.
End Props.

(** Reading a property of an object as a value. *)
Definition prop (o : obj) (k : string) : value :=
  match Props.get o k with Some v => v | None => VUndefined end.

(** [{...a, ...b}]: the own properties of [a], then those of [b], copied into a
    fresh object. *)
Definition spread (a b : obj) : obj :=
  fold_left (fun acc kv => Props.set acc (fst kv) (snd kv)) (a ++ b) [].

(** ** lodash [merge]

    [merge(object, ...sources)] runs [baseMerge(object, source)] for each
    source in turn.  For every property [(key, srcValue)] of the source:
    a plain object is merged recursively into the destination's value at [key]
    when that is an object that is not a function, and into a fresh [{}]
    otherwise; any other value is assigned, except that [undefined] is not
    assigned over an existing property.  Arrays, typed arrays, buffers and
    class instances are outside [value]. *)

Definition assignMergeValue (object : obj) (key : string) (v : value) : obj :=
  match v with
  | VUndefined => if Props.has object key then object else Props.set object key v
  | _ => Props.set object key v
  end.

Fixpoint mergeValue (objValue srcValue : value) {struct srcValue} : value :=
  match srcValue with
  | VObject sprops =>
      let start : obj :=
        match objValue with VObject o => o | _ => [] end in
      VObject
        ((fix each (src : list (string * value)) (object : obj) {struct src} : obj :=
            match src with
            | [] => object
            | (key, sv) :: rest =>
                each rest (assignMergeValue object key (mergeValue (prop object key) sv))
            end) sprops start)
  | _ => srcValue
  end.

Fixpoint baseMerge (object source : obj) {struct source} : obj :=
  match source with
  | [] => object
  | (key, sv) :: rest =>
      baseMerge (assignMergeValue object key (mergeValue (prop object key) sv)) rest
  end.

Definition merge (object : obj) (sources : list obj) : obj :=
  fold_left baseMerge sources object.

(** Well-formed objects: no key occurs twice, at any depth. *)
Fixpoint nodupb (l : list string) : bool :=
  match l with
  | [] => true
  | k :: rest => negb (existsb (String.eqb k) rest) && nodupb rest
  end.

Fixpoint wf_value (v : value) : bool :=
  match v with
  | VObject props =>
      nodupb (map fst props) &&
      (fix all (l : list (string * value)) : bool :=
         match l with
         | [] => true
         | (_, x) :: rest => wf_value x && all rest
         end) props
  | _ => true
  end.

Definition wf_obj (o : obj) : bool := wf_value (VObject o).

(** Two objects with the same properties, whatever their order. *)
Definition same_props (a b : obj) : Prop :=
  forall k, Props.get a k = Props.get b k.

(** ** Fixtures and messages *)

(** Modelled from the spec: the Flow types [Fixture], [Fixtures] and
    [FixtureNames] of [./types], which is not part of the sources at hand.  A
    fixture is a structured value (an object); the registry maps component
    names to maps from fixture names to fixtures; the names map component
    names to lists of fixture names. *)
Definition Fixture : Type := obj.
Definition Fixtures : Type := list (string * list (string * Fixture)).
Definition FixtureNames : Type := list (string * list string).

Record Args : Type := {
  renderer : nat;
  proxies : list nat;
  fixtures : Fixtures;
  dismissRuntimeErrors : option nat
}.

(** The [data] of an inbound [LoaderMessage]. *)
Record MessageData : Type := {
  type : string;
  component : string;
  fixture : string;
  fixtureBody : obj
}.

(** What [postMessageToParent] sends. *)
Inductive OutMessage : Type :=
| loaderReady (names : FixtureNames)
| fixtureListUpdate (names : FixtureNames)
| fixtureLoad (body : obj)
| fixtureUpdate (body : obj).

Inductive Error : Type :=
| TypeError.

Inductive Event : Type :=
| AddEventListener (onMessage : nat)
| RemoveEventListener (onMessage : nat)
| PostMessage (data : OutMessage)
| Mount (renderer : nat) (proxies : list nat) (fixture : value) (onUpdate : nat)
| ConsoleError (text : string)
| CallHook (f : nat)
| UnhandledRejection (e : Error).

(** ** The module state and the [window] *)

Record World : Type := {
  unbindPrev : option nat;
  selected : option (string * string);
  hasFixtureUpdate : bool;
  listeners : list nat;
  closures : list Args
}.

(** The state when the module has just been loaded. *)
Definition init : World :=
  {| unbindPrev := None; selected := None; hasFixtureUpdate := false;
     listeners := []; closures := [] |}.

(** ** Computations: state, emitted events, exceptions *)

Inductive Completion (A : Type) : Type :=
| Normal (a : A)
| Throw (e : Error).
Arguments Throw {A} e.

Record Result (A : Type) : Type := {
  completion : Completion A;
  world : World;
  events : list Event
}.

Definition M (A : Type) : Type := World -> Result A.

Definition ret {A} (a : A) : M A :=
  fun w => {| completion := Normal a; world := w; events := [] |}.

Definition throw {A} (e : Error) : M A :=
  fun w => {| completion := Throw e; world := w; events := [] |}.

Definition mbind {A B} (m : M A) (k : A -> M B) : M B :=
  fun w =>
    match m w with
    | {| completion := Normal a; world := w1; events := e1 |} =>
        match k a w1 with
        | {| completion := c; world := w2; events := e2 |} =>
            {| completion := c; world := w2; events := e1 ++ e2 |}
        end
    | {| completion := Throw e; world := w1; events := e1 |} =>
        {| completion := Throw e; world := w1; events := e1 |}
    end.

Notation "x <- m ;; k" := (mbind m (fun x => k))
  (at level 61, m at next level, right associativity).
Notation "m ;; k" := (mbind m (fun _ => k))
  (at level 61, right associativity).

Definition gets {A} (f : World -> A) : M A :=
  fun w => {| completion := Normal (f w); world := w; events := [] |}.

Definition modify (f : World -> World) : M unit :=
  fun w => {| completion := Normal tt; world := f w; events := [] |}.

Definition emit (e : Event) : M unit :=
  fun w => {| completion := Normal tt; world := w; events := [e] |}.

(** A promise nobody awaits: a rejection is reported and goes no further. *)
Definition detached {A} (m : M A) : M unit :=
  fun w =>
    match m w with
    | {| completion := Normal _; world := w1; events := e1 |} =>
        {| completion := Normal tt; world := w1; events := e1 |}
    | {| completion := Throw e; world := w1; events := e1 |} =>
        {| completion := Normal tt; world := w1;
           events := e1 ++ [UnhandledRejection e] |}
    end.

Definition set_unbindPrev (v : option nat) (w : World) : World :=
  {| unbindPrev := v; selected := selected w;
     hasFixtureUpdate := hasFixtureUpdate w;
     listeners := listeners w; closures := closures w |}.

Definition set_selected (v : option (string * string)) (w : World) : World :=
  {| unbindPrev := unbindPrev w; selected := v;
     hasFixtureUpdate := hasFixtureUpdate w;
     listeners := listeners w; closures := closures w |}.

Definition set_hasFixtureUpdate (v : bool) (w : World) : World :=
  {| unbindPrev := unbindPrev w; selected := selected w;
     hasFixtureUpdate := v;
     listeners := listeners w; closures := closures w |}.

Definition set_listeners (v : list nat) (w : World) : World :=
  {| unbindPrev := unbindPrev w; selected := selected w;
     hasFixtureUpdate := hasFixtureUpdate w;
     listeners := v; closures := closures w |}.

Definition set_closures (v : list Args) (w : World) : World :=
  {| unbindPrev := unbindPrev w; selected := selected w;
     hasFixtureUpdate := hasFixtureUpdate w;
     listeners := listeners w; closures := v |}.

(** [window.addEventListener('message', f, false)]: a listener already
    registered is not registered twice. *)
Definition addListener (f : nat) (ls : list nat) : list nat :=
  if existsb (Nat.eqb f) ls then ls else ls ++ [f].

Definition addEventListener (f : nat) : M unit :=
  modify (fun w => set_listeners (addListener f (listeners w)) w) ;;
  emit (AddEventListener f).

(** [window.removeEventListener('message', f)] *)
Definition removeListener (f : nat) (ls : list nat) : list nat :=
  filter (fun g => negb (Nat.eqb f g)) ls.

Definition removeEventListener (f : nat) : M unit :=
  modify (fun w => set_listeners (removeListener f (listeners w)) w) ;;
  emit (RemoveEventListener f).

(** Entering [connectLoader]: the closures of this call ([onMessage],
    [unbind], [onContextUpdate]) get the next free number, and the call's
    arguments are kept for them. *)
Definition newClosures (args : Args) : M nat :=
  fun w =>
    {| completion := Normal (List.length (closures w));
       world := set_closures (closures w ++ [args]) w;
       events := [] |}.

(** ** [connect-loader.js] *)

Record Parts : Type := {
  unserializable : obj;
  serializable : obj
}.

(** What the prototype chain adds to the own properties.  A registry and its
    component maps are plain objects: a name they do not have is read from
    [Object.prototype] ([objectPrototype], [VUndefined] when it has nothing
    under the name).  A value read from there is no part of the registry:
    reading a property of it ([getInherited]; [None]: the read throws) and
    splitting it ([splitInherited]; [None]: the splitter throws) are
    whatever the runtime makes of them. *)
Record Chain : Type := {
  objectPrototype : string -> value;
  getInherited : value -> string -> option value;
  splitInherited : value -> option Parts
}.

(** [fixtures[component]]: a component of the registry, or what the
    prototype chain has under the name. *)
Inductive Component : Type :=
| OwnComponent (fs : list (string * Fixture))
| InheritedValue (v : value).

Section Loader.

(** [splitUnserializableParts] of [react-cosmos-shared] is not part of the
    sources at hand.  It is a parameter: a total function on objects, and
    whatever it does when handed [undefined] ([None]: it throws). *)
Variable splitUnserializableParts : obj -> Parts.
Variable splitUndefined : option Parts.
Variable chain : Chain.

Definition splitParts (v : value) : M Parts :=
  match v with
  | VObject o => ret (splitUnserializableParts o)
  | VUndefined =>
      match splitUndefined with
      | Some p => ret p
      | None => throw TypeError
      end
  | _ =>
      match splitInherited chain v with
      | Some p => ret p
      | None => throw TypeError
      end
  end.

Definition postMessageToParent (data : OutMessage) : M unit :=
  emit (PostMessage data).

Definition consoleError (text : string) : M unit :=
  emit (ConsoleError text).

Definition extractFixtureNames (fixtures : Fixtures) : FixtureNames :=
  fold_left
    (fun acc next =>
       Props.set acc next
         (match Props.get fixtures next with
          | Some fs => Props.keys fs
          | None => []
          end))
    (Props.keys fixtures) [].

Definition applyFixturePart (currentFixture : value) (fixturePart : obj)
  : M Fixture :=
  parts <- splitParts currentFixture ;;
  ret (merge [] [unserializable parts;
                 spread (serializable parts) fixturePart]).

Definition readComponent (fixtures : Fixtures) (component : string)
  : Component :=
  match Props.get fixtures component with
  | Some fs => OwnComponent fs
  | None => InheritedValue (objectPrototype chain component)
  end.

Definition componentTruthy (x : Component) : bool :=
  match x with
  | OwnComponent _ => true
  | InheritedValue v => truthy v
  end.

(** [x[fixture]], for [x] the value of [fixtures[component]]: a [TypeError]
    when [x] is [undefined] or [null]. *)
Definition readFixture (x : Component) (fixture : string) : M value :=
  match x with
  | OwnComponent fs =>
      match Props.get fs fixture with
      | Some fx => ret (VObject fx)
      | None => ret (objectPrototype chain fixture)
      end
  | InheritedValue VUndefined | InheritedValue VNull => throw TypeError
  | InheritedValue v =>
      match getInherited chain v fixture with
      | Some found => ret found
      | None => throw TypeError
      end
  end.

(** [fixtures[component][fixture]] *)
Definition lookupFixture (fixtures : Fixtures) (component fixture : string)
  : M value :=
  readFixture (readComponent fixtures component) fixture.

Section Call.

(** One call of [connectLoader]: its arguments, and the number [self] of the
    closures it creates. *)
Variable args : Args.
Variable self : nat.

Definition loadFixture (fixture : value) (notifyParent : bool) : M unit :=
  emit (Mount (renderer args) (proxies args) fixture self) ;;
  if notifyParent then
    parts <- splitParts fixture ;;
    postMessageToParent (fixtureLoad (serializable parts))
  else ret tt.

Definition onContextUpdate (fixturePart : obj) : M unit :=
  modify (set_hasFixtureUpdate true) ;;
  parts <- splitParts (VObject fixturePart) ;;
  postMessageToParent (fixtureUpdate (serializable parts)).

Definition missingFixture (component fixture : string) : string :=
  "[Cosmos] Missing fixture for " ++ component ++ ":" ++ fixture.

(** The guard [fixtures[component] && fixtures[component][fixture]] reads
    both properties through the prototype chain and tests the values found;
    the fixture to load is read once more. *)
Definition onMessage (data : MessageData) : M unit :=
  if String.eqb (type data) "fixtureSelect" then
    let x := readComponent (fixtures args) (component data) in
    if componentTruthy x then
      found <- readFixture x (fixture data) ;;
      if truthy found then
        modify (set_selected (Some (component data, fixture data))) ;;
        modify (set_hasFixtureUpdate false) ;;
        selectedFixture <-
          lookupFixture (fixtures args) (component data) (fixture data) ;;
        loadFixture selectedFixture true ;;
        match dismissRuntimeErrors args with
        | Some hook => emit (CallHook hook)
        | None => ret tt
        end
      else consoleError (missingFixture (component data) (fixture data))
    else consoleError (missingFixture (component data) (fixture data))
  else if String.eqb (type data) "fixtureEdit" then
    sel <- gets selected ;;
    match sel with
    | None => consoleError "[Cosmos] No selected fixture to edit"
    | Some (c, f) =>
        modify (set_hasFixtureUpdate true) ;;
        selectedFixture <- lookupFixture (fixtures args) c f ;;
        edited <- applyFixturePart selectedFixture (fixtureBody data) ;;
        loadFixture (VObject edited) false
    end
  else ret tt.

Definition bind : M unit := addEventListener self.

Definition unbind : M unit :=
  removeEventListener self ;;
  modify (set_unbindPrev None).

End Call.

(** [unbindPrev()]: the stored function is the [unbind] of the call whose
    number is stored. *)
Definition callUnbindPrev (u : nat) : M unit := unbind u.

Definition destroy : M unit :=
  prev <- gets unbindPrev ;;
  match prev with
  | Some u =>
      callUnbindPrev u ;;
      modify (set_selected None) ;;
      modify (set_hasFixtureUpdate false)
  | None => ret tt
  end.

Definition connectLoader (args : Args) : M (M unit) :=
  self <- newClosures args ;;
  prev <- gets unbindPrev ;;
  let isFirstCall := match prev with Some _ => false | None => true end in
  match prev with
  | Some u => callUnbindPrev u
  | None => ret tt
  end ;;
  modify (set_unbindPrev (Some self)) ;;
  bind self ;;
  (if isFirstCall then
     postMessageToParent (loaderReady (extractFixtureNames (fixtures args)))
   else
     postMessageToParent (fixtureListUpdate (extractFixtureNames (fixtures args))) ;;
     sel <- gets selected ;;
     upd <- gets hasFixtureUpdate ;;
     match sel with
     | Some (c, f) =>
         if negb upd then
           fx <- lookupFixture (fixtures args) c f ;;
           loadFixture args self fx true
         else ret tt
     | None => ret tt
     end) ;;
  ret destroy.

(** ** The environment: what can happen to the module *)

(** A [message] event on [window] runs every registered listener; each is an
    [async] function, whose rejection nobody handles. *)
Fixpoint forEach {A} (l : list A) (f : A -> M unit) : M unit :=
  match l with
  | [] => ret tt
  | x :: rest => f x ;; forEach rest f
  end.

Definition dispatchMessage (data : MessageData) : M unit :=
  ls <- gets listeners ;;
  cs <- gets closures ;;
  forEach ls (fun id =>
    match nth_error cs id with
    | Some args => detached (onMessage args id data)
    | None => ret tt
    end).

(** What the page, the parent frame and the mounted context can do: call
    [connectLoader], call a [destroy] it returned, send a message, report an
    update through [onUpdate]. *)
Inductive Action : Type :=
| CallConnectLoader (args : Args)
| CallDestroy
| WindowMessage (data : MessageData)
| ContextUpdate (fixturePart : obj).

Definition step (a : Action) : M unit :=
  match a with
  | CallConnectLoader args => detached (connectLoader args)
  | CallDestroy => destroy
  | WindowMessage data => dispatchMessage data
  | ContextUpdate part => onContextUpdate part
  end.

Definition run (l : list Action) : M unit := forEach l step.

End Loader.

(** ** A concrete splitter, and the scenario of the specification *)

Module Scenario.

Fixpoint isSerializable (v : value) : bool :=
  match v with
  | VFunction _ => false
  | VObject props =>
      (fix all (l : list (string * value)) : bool :=
         match l with
         | [] => true
         | (_, x) :: rest => isSerializable x && all rest
         end) props
  | _ => true
  end.

(** Modelled from the spec: the Serialization Splitter ([react-cosmos-shared],
    not part of the sources at hand) partitions a fixture into a serializable
    subset, safe to transmit, and an unserializable subset (functions and the
    like), kept local.  Here the partition is by top-level property. *)
Definition splitUnserializableParts (o : obj) : Parts :=
  {| unserializable := filter (fun kv => negb (isSerializable (snd kv))) o;
     serializable := filter (fun kv => isSerializable (snd kv)) o |}.

(** Handed [undefined], the splitter throws. *)
Definition splitUndefined : option Parts := None.

(** The own enumerable properties of a string: its characters, by index. *)
Fixpoint characters (i : nat) (s : string) : obj :=
  match s with
  | EmptyString => []
  | String a rest =>
      (NilEmpty.string_of_uint (Nat.to_uint i), VString (String a EmptyString))
      :: characters (S i) rest
  end.

(** The part of the standard prototypes the examples read: the constructor
    [Object] (function 100) and the method [toString] (function 101) that a
    plain object inherits, with the [name] and [length] of the two; and a
    splitter that finds the characters in a string, nothing in a function,
    number or boolean, and throws on [null]. *)
Definition chain : Chain :=
  {| objectPrototype := fun k =>
       if String.eqb k "constructor" then VFunction 100
       else if String.eqb k "toString" then VFunction 101
       else VUndefined;
     getInherited := fun v k =>
       match v with
       | VFunction 100 =>
           if String.eqb k "name" then Some (VString "Object")
           else if String.eqb k "length" then Some (VNumber 1)
           else Some VUndefined
       | VFunction 101 =>
           if String.eqb k "name" then Some (VString "toString")
           else if String.eqb k "length" then Some (VNumber 0)
           else Some VUndefined
       | _ => Some VUndefined
       end;
     splitInherited := fun v =>
       match v with
       | VUndefined | VNull => None
       | VString s =>
           Some {| unserializable := []; serializable := characters 0 s |}
       | _ => Some {| unserializable := []; serializable := [] |}
       end |}.

Definition registry : Fixtures :=
  [("Button", [("default", [("label", VString "Hi")])]);
   ("Widget", [("f1", [("a", VNumber 1); ("b", VNumber 2);
                       ("fn", VFunction 1)])])].

Definition args0 : Args :=
  {| renderer := 0; proxies := []; fixtures := registry;
     dismissRuntimeErrors := Some 7 |}.

(** A later registry, from which [Button] is gone. *)
Definition args1 : Args :=
  {| renderer := 0; proxies := [];
     fixtures := [("Widget", [("f1", [("a", VNumber 1)])])];
     dismissRuntimeErrors := None |}.

Definition select (c f : string) : MessageData :=
  {| type := "fixtureSelect"; component := c; fixture := f; fixtureBody := [] |}.

Definition edit (body : obj) : MessageData :=
  {| type := "fixtureEdit"; component := ""; fixture := ""; fixtureBody := body |}.

Definition other : MessageData :=
  {| type := "fixtureZoom"; component := ""; fixture := ""; fixtureBody := [] |}.

Definition go (l : list Action) : Result unit :=
  run splitUnserializableParts splitUndefined chain l init.

(** The state once bound with [args0] and with the given fixture selected. *)
Definition selecting (c f : string) : World :=
  world (go [CallConnectLoader args0; WindowMessage (select c f)]).

End Scenario.

(** A fixture whose [props] hold a callback beside plain data. *)
Module Examples.

Definition panel : Fixture :=
  [("title", VString "T");
   ("props", VObject [("onClick", VFunction 2); ("x", VNumber 2)])].

Definition widget : Fixture :=
  [("a", VNumber 1); ("b", VNumber 2); ("fn", VFunction 1)].


End Examples.

(** ** Reading states and events

    The vocabulary of the properties below. *)

Definition setProperty (acc : obj) (kv : string * value) : obj :=
  Props.set acc (fst kv) (snd kv).

(** The fixture an edit produces, from the two parts of the registered
    fixture and the body of the edit. *)
Definition edited (parts : Parts) (fixturePart : obj) : Fixture :=
  merge [] [unserializable parts; spread (serializable parts) fixturePart].

Definition registryEntry (fixtures : Fixtures) (c f : string) : option Fixture :=
  match Props.get fixtures c with
  | Some fs => Props.get fs f
  | None => None
  end.

Definition isMount (e : Event) : bool :=
  match e with Mount _ _ _ _ => true | _ => false end.

Definition isConsoleError (e : Event) : bool :=
  match e with ConsoleError _ => true | _ => false end.

Definition mounts (evs : list Event) : list Event := filter isMount evs.

Definition consoleErrors (evs : list Event) : list Event :=
  filter isConsoleError evs.

Fixpoint posted (evs : list Event) : list OutMessage :=
  match evs with
  | [] => []
  | PostMessage m :: rest => m :: posted rest
  | _ :: rest => posted rest
  end.

Definition isFixtureLoad (m : OutMessage) : bool :=
  match m with fixtureLoad _ => true | _ => false end.

Definition isLoaderReady (m : OutMessage) : bool :=
  match m with loaderReady _ => true | _ => false end.

Definition applyListenerEvent (active : list nat) (e : Event) : list nat :=
  match e with
  | AddEventListener f => addListener f active
  | RemoveEventListener f => removeListener f active
  | _ => active
  end.

(** The listeners registered after the events, from those before them. *)
Definition replay (active : list nat) (evs : list Event) : list nat :=
  fold_left applyListenerEvent evs active.

(** At no point of the events is more than one listener registered. *)
Fixpoint atMostOneListener (active : list nat) (evs : list Event) : bool :=
  Nat.leb (List.length active) 1 &&
  match evs with
  | [] => true
  | e :: rest => atMostOneListener (applyListenerEvent active e) rest
  end.

Definition isListenerEvent (e : Event) : bool :=
  match e with
  | AddEventListener _ | RemoveEventListener _ => true
  | _ => false
  end.

(** The listener registered is the one of the binding in [unbindPrev]. *)
Definition oneBinding (w : World) : Prop :=
  listeners w = match unbindPrev w with Some u => [u] | None => [] end.

(** A computation that completes and touches neither the binding nor the
    listeners. *)
Definition quiet (m : M unit) : Prop :=
  forall w,
    completion (m w) = Normal tt /\
    unbindPrev (world (m w)) = unbindPrev w /\
    listeners (world (m w)) = listeners w /\
    closures (world (m w)) = closures w /\
    existsb isListenerEvent (events (m w)) = false.

(** What a step keeps: it completes, the one listener registered stays the
    one of the current binding, and the events it emits never register a
    second listener. *)
Definition keepsOneBinding (m : M unit) : Prop :=
  forall w,
    oneBinding w ->
    completion (m w) = Normal tt /\
    oneBinding (world (m w)) /\
    atMostOneListener (listeners w) (events (m w)) = true /\
    replay (listeners w) (events (m w)) = listeners (world (m w)).

(** The binding a call of [connectLoader] finds: none on a first call. *)
Definition isFirstCall (w : World) : bool :=
  match unbindPrev w with Some _ => false | None => true end.

(** Whether a binding is active after the actions: the last call of
    [connectLoader] has not been followed by a [destroy]. *)
Definition bindingActive (l : list Action) : bool :=
  fold_left
    (fun active a =>
       match a with
       | CallConnectLoader _ => true
       | CallDestroy => false
       | _ => active
       end) l false.

(** Messages from the parent frame and updates from the mounted context, as
    opposed to calls of [connectLoader] and [destroy]. *)
Definition isTraffic (a : Action) : bool :=
  match a with
  | WindowMessage _ | ContextUpdate _ => true
  | _ => false
  end.


(** A value that [merge] assigns as it is: [null], a boolean, a number, a
    string or a function; not [undefined], which it does not assign over an
    existing property, nor a plain object, which it merges. *)
Definition atomic (v : value) : bool :=
  match v with
  | VUndefined | VObject _ => false
  | _ => true
  end.

(** The state between two actions: the listener registered is the one of
    the current binding, and there is no selection without a binding. *)
Definition settled (w : World) : Prop :=
  oneBinding w /\ (unbindPrev w = None -> selected w = None).

(** The actions that can mount: a call of [connectLoader] and a message. *)
Definition mayMount (a : Action) : bool :=
  match a with
  | CallConnectLoader _ | WindowMessage _ => true
  | _ => false
  end.

(** The registry without the fixture bodies. *)
Definition fixtureNamesOf (fixtures : Fixtures) : FixtureNames :=
  map (fun cf => (fst cf, Props.keys (snd cf))) fixtures.

(** ** Induction on values, through the properties of objects *)

Section ValueInduction.
Variable P : value -> Prop.
Hypothesis Hundefined : P VUndefined.
Hypothesis Hnull : P VNull.
Hypothesis Hboolean : forall b, P (VBoolean b).
Hypothesis Hnumber : forall n, P (VNumber n).
Hypothesis Hstring : forall s, P (VString s).
Hypothesis Hfunction : forall id, P (VFunction id).
Hypothesis Hobject :
  forall props, Forall (fun kv => P (snd kv)) props -> P (VObject props).

Fixpoint value_props_ind (v : value) : P v :=
  match v with
  | VUndefined => Hundefined
  | VNull => Hnull
  | VBoolean b => Hboolean b
  | VNumber n => Hnumber n
  | VString s => Hstring s
  | VFunction id => Hfunction id
  | VObject props =>
      Hobject
        ((fix each (l : list (string * value)) : Forall (fun kv => P (snd kv)) l :=
            match l with
            | [] => Forall_nil _
            | kv :: rest => Forall_cons kv (value_props_ind (snd kv)) (each rest)
            end) props)
  end.
End ValueInduction.

(** * Properties *)

Ltac break_match :=
  match goal with
  | |- context [match ?x with _ => _ end] =>
      lazymatch x with
      | context [match _ with _ => _ end] => fail
      | _ => destruct x eqn:?
      end
  end.

Ltac run_cases :=
  cbv [mbind ret throw gets modify emit detached]; simpl;
  repeat (break_match; simpl; try discriminate); auto.

(** ** Object properties *)

Section PropsFacts.
Variable V : Type.
Implicit Types (o : list (string * V)) (k : string) (v : V).

Lemma get_set_same o k v : Props.get (Props.set o k v) k = Some v.
Proof.
  induction o as [|[k' v'] rest IH]; simpl.
  - now rewrite String.eqb_refl.
  - destruct (String.eqb k k') eqn:E; simpl; rewrite E; auto.
Qed.

Lemma get_set_other o k k' v :
  k <> k' -> Props.get (Props.set o k' v) k = Props.get o k.
Proof.
  intros Hne. induction o as [|[k0 v0] rest IH]; simpl.
  - apply String.eqb_neq in Hne. now rewrite Hne.
  - destruct (String.eqb k' k0) eqn:E; simpl.
    + apply String.eqb_eq in E. subst k0.
      apply String.eqb_neq in Hne. now rewrite Hne.
    + now rewrite IH.
Qed.

Lemma has_set_other o k k' v :
  k <> k' -> Props.has (Props.set o k' v) k = Props.has o k.
Proof. intros H. unfold Props.has. now rewrite get_set_other. Qed.

Lemma set_absent o k v :
  Props.has o k = false -> Props.set o k v = o ++ [(k, v)].
Proof.
  unfold Props.has. induction o as [|[k' v'] rest IH]; simpl; auto.
  destruct (String.eqb k k') eqn:E; [discriminate|].
  intros H. now rewrite IH.
Qed.

Lemma has_keys o k :
  Props.has o k = existsb (String.eqb k) (Props.keys o).
Proof.
  unfold Props.has, Props.keys.
  induction o as [|[k' v'] rest IH]; simpl; auto.
  destruct (String.eqb k k'); auto.
Qed.

Lemma get_app o o' k :
  Props.get (o ++ o') k =
  match Props.get o k with Some v => Some v | None => Props.get o' k end.
Proof.
  induction o as [|[k' v'] rest IH]; simpl; auto.
  destruct (String.eqb k k'); auto.
Qed.

Lemma has_app o o' k :
  Props.has (o ++ o') k = Props.has o k || Props.has o' k.
Proof.
  unfold Props.has. rewrite get_app. now destruct (Props.get o k).
Qed.

End PropsFacts.

(** ** Well-formed objects *)

Lemma wf_obj_cons (k : string) (v : value) (rest : obj) :
  wf_obj ((k, v) :: rest) = true <->
  Props.has rest k = false /\ wf_value v = true /\ wf_obj rest = true.
Proof.
  rewrite has_keys. unfold wf_obj, Props.keys.
  cbn [wf_value nodupb map fst].
  destruct (existsb (String.eqb k) (map fst rest)); simpl;
    destruct (nodupb (map fst rest)); simpl;
    destruct (wf_value v); simpl; intuition congruence.
Qed.

Lemma wf_obj_nil : wf_obj [] = true.
Proof. reflexivity. Qed.

Lemma wf_obj_set (o : obj) (k : string) (v : value) :
  wf_obj o = true -> wf_value v = true -> wf_obj (Props.set o k v) = true.
Proof.
  intros Ho Hv. induction o as [|[k' v'] rest IH]; simpl.
  - apply wf_obj_cons. auto.
  - apply wf_obj_cons in Ho as (Hk & Hv' & Hr).
    destruct (String.eqb k k') eqn:E; apply wf_obj_cons.
    + auto.
    + split; [|auto]. rewrite has_set_other; auto.
      intros ->. now rewrite String.eqb_refl in E.
Qed.

(** ** [merge] *)

Lemma mergeValue_object (u : value) (sprops : obj) :
  mergeValue u (VObject sprops) =
  VObject (baseMerge (match u with VObject o => o | _ => [] end) sprops).
Proof.
  cbn [mergeValue]. f_equal.
  match goal with |- _ sprops ?s = _ => generalize s end.
  induction sprops as [|[k v] rest IH]; intros start; simpl; auto.
Qed.

Lemma prop_absent (o : obj) (k : string) :
  Props.has o k = false -> prop o k = VUndefined.
Proof.
  unfold Props.has, prop. now destruct (Props.get o k).
Qed.

Lemma assign_absent (o : obj) (k : string) (v : value) :
  Props.has o k = false -> assignMergeValue o k v = o ++ [(k, v)].
Proof.
  intros H. unfold assignMergeValue.
  destruct v; rewrite ?H; now apply set_absent.
Qed.

Lemma get_assign_other (o : obj) (k k' : string) (v : value) :
  k <> k' -> Props.get (assignMergeValue o k' v) k = Props.get o k.
Proof.
  intros H. unfold assignMergeValue.
  destruct v; try destruct (Props.has o k'); auto using get_set_other.
Qed.

Lemma has_singleton (k k' : string) (v : value) :
  Props.has [(k', v)] k = String.eqb k k'.
Proof. unfold Props.has. simpl. now destruct (String.eqb k k'). Qed.

(** Merging a well-formed object into an object that has none of its keys
    appends a copy of it. *)
Lemma baseMerge_append_when (src : obj) :
  Forall (fun kv => wf_value (snd kv) = true ->
                    forall u, (forall o, u <> VObject o) ->
                              mergeValue u (snd kv) = snd kv) src ->
  wf_obj src = true ->
  forall dest,
    (forall k, Props.has src k = true -> Props.has dest k = false) ->
    baseMerge dest src = dest ++ src.
Proof.
  induction 1 as [|[k v] rest Hv _ IH]; intros Hwf dest Hdis; simpl.
  - now rewrite app_nil_r.
  - apply wf_obj_cons in Hwf as (Hk & Hwv & Hwr).
    assert (Hdk : Props.has dest k = false).
    { apply Hdis. unfold Props.has. simpl. now rewrite String.eqb_refl. }
    rewrite (prop_absent _ _ Hdk).
    simpl in Hv. rewrite (Hv Hwv) by discriminate.
    rewrite assign_absent by assumption.
    rewrite IH; auto.
    + now rewrite <- app_assoc.
    + intros k' Hk'. rewrite has_app, has_singleton.
      assert (k' <> k) by (intros ->; congruence).
      apply String.eqb_neq in H as E. rewrite E, orb_false_r.
      apply Hdis. unfold Props.has in *. simpl. now rewrite E.
Qed.

(** Merged into a value that is not an object, a well-formed value is copied. *)
Lemma mergeValue_copy (v : value) :
  wf_value v = true ->
  forall u, (forall o, u <> VObject o) -> mergeValue u v = v.
Proof.
  induction v as [| | | | | |props IH] using value_props_ind;
    intros Hwf u Hu; auto.
  rewrite mergeValue_object.
  destruct u; try (exfalso; eapply Hu; reflexivity);
    f_equal; apply (baseMerge_append_when IH Hwf []); reflexivity.
Qed.

Lemma baseMerge_copy (src : obj) :
  wf_obj src = true -> baseMerge [] src = src.
Proof.
  intros Hwf. apply (baseMerge_append_when (src := src)); auto.
  apply Forall_forall. intros kv _ Hv u Hu. now apply mergeValue_copy.
Qed.

(** A property the source does not have is left as it is. *)
Lemma baseMerge_get_other (src : obj) (k : string) :
  Props.has src k = false ->
  forall dest, Props.get (baseMerge dest src) k = Props.get dest k.
Proof.
  unfold Props.has.
  induction src as [|[k' v'] rest IH]; simpl; auto.
  destruct (String.eqb k k') eqn:E; [discriminate|].
  intros H dest. rewrite IH by assumption.
  apply get_assign_other. intros ->. now rewrite String.eqb_refl in E.
Qed.

(** A property only the source has is copied from it. *)
Lemma baseMerge_get_new (src : obj) (k : string) :
  wf_obj src = true ->
  forall dest,
    Props.has dest k = false ->
    Props.has src k = true ->
    Props.get (baseMerge dest src) k = Props.get src k.
Proof.
  induction src as [|[k' v'] rest IH]; intros Hwf dest Hd Hs.
  - discriminate.
  - apply wf_obj_cons in Hwf as (Hk & Hwv & Hwr). simpl.
    destruct (String.eqb k k') eqn:E.
    + apply String.eqb_eq in E. subst k'.
      rewrite baseMerge_get_other by assumption.
      rewrite (prop_absent _ _ Hd), mergeValue_copy by (auto; discriminate).
      rewrite assign_absent by assumption.
      rewrite get_app. unfold Props.has in Hd.
      destruct (Props.get dest k); [discriminate|].
      simpl. now rewrite String.eqb_refl.
    + apply IH; auto.
      * unfold Props.has. rewrite get_assign_other; auto.
        intros ->. now rewrite String.eqb_refl in E.
      * unfold Props.has in *. simpl in Hs. now rewrite E in Hs.
Qed.

(** ** Object spread *)

Lemma spread_fold (a b : obj) :
  spread a b = fold_left setProperty b (fold_left setProperty a []).
Proof. unfold spread. now rewrite fold_left_app. Qed.

Lemma fold_set_get (l : obj) (k : string) :
  wf_obj l = true ->
  forall acc,
    Props.get (fold_left setProperty l acc) k =
    match Props.get l k with Some v => Some v | None => Props.get acc k end.
Proof.
  induction l as [|[k' v'] rest IH]; intros Hwf acc; simpl; auto.
  apply wf_obj_cons in Hwf as (Hk & _ & Hwr).
  rewrite IH by assumption. unfold setProperty. simpl.
  destruct (String.eqb k k') eqn:E.
  - apply String.eqb_eq in E. subst k'.
    unfold Props.has in Hk. destruct (Props.get rest k); [discriminate|].
    apply get_set_same.
  - destruct (Props.get rest k); auto.
    apply get_set_other. intros ->. now rewrite String.eqb_refl in E.
Qed.

Lemma fold_set_wf (l : obj) :
  wf_obj l = true ->
  forall acc, wf_obj acc = true -> wf_obj (fold_left setProperty l acc) = true.
Proof.
  induction l as [|[k' v'] rest IH]; intros Hwf acc Hacc; simpl; auto.
  apply wf_obj_cons in Hwf as (_ & Hv & Hwr).
  apply IH; auto. now apply wf_obj_set.
Qed.

(** In [{...a, ...b}] a property of [b] wins over the one of [a]. *)
Lemma spread_get (a b : obj) (k : string) :
  wf_obj a = true -> wf_obj b = true ->
  Props.get (spread a b) k =
  match Props.get b k with Some v => Some v | None => Props.get a k end.
Proof.
  intros Ha Hb. rewrite spread_fold, !fold_set_get by assumption.
  simpl. destruct (Props.get b k); auto. now destruct (Props.get a k).
Qed.

Lemma spread_wf (a b : obj) :
  wf_obj a = true -> wf_obj b = true -> wf_obj (spread a b) = true.
Proof.
  intros Ha Hb. rewrite spread_fold. auto using fold_set_wf, wf_obj_nil.
Qed.

(** The merge law of an edit, property by property: what only the
    unserializable part has comes from it, and everything else from the
    serializable part overridden by the edit. *)
Lemma edited_get (parts : Parts) (fixturePart : obj) (k : string) :
  wf_obj (unserializable parts) = true ->
  wf_obj (serializable parts) = true ->
  wf_obj fixturePart = true ->
  (Props.has (unserializable parts) k = false ->
   Props.get (edited parts fixturePart) k =
   match Props.get fixturePart k with
   | Some v => Some v
   | None => Props.get (serializable parts) k
   end) /\
  (Props.has (spread (serializable parts) fixturePart) k = false ->
   Props.get (edited parts fixturePart) k = Props.get (unserializable parts) k).
Proof.
  intros Hu Hs Hp. unfold edited, merge. simpl.
  rewrite (baseMerge_copy _ Hu).
  pose proof (spread_wf _ _ Hs Hp) as Hsp.
  split; intros H.
  - rewrite <- spread_get by assumption.
    destruct (Props.has (spread (serializable parts) fixturePart) k) eqn:E.
    + now apply baseMerge_get_new.
    + rewrite baseMerge_get_other by assumption.
      unfold Props.has in *.
      destruct (Props.get (unserializable parts) k); [discriminate|].
      now destruct (Props.get (spread (serializable parts) fixturePart) k).
  - now apply baseMerge_get_other.
Qed.

(** ** More on [merge] *)

Lemma wf_obj_get (o : obj) (k : string) (v : value) :
  wf_obj o = true -> Props.get o k = Some v -> wf_value v = true.
Proof.
  induction o as [|[k' v'] rest IH]; simpl; [discriminate|].
  intros Ho. apply wf_obj_cons in Ho as (_ & Hv' & Hr).
  destruct (String.eqb k k'); [congruence | auto].
Qed.

Lemma mergeValue_atomic (u v : value) :
  atomic v = true -> mergeValue u v = v.
Proof. destruct v; simpl; intros H; try discriminate; reflexivity. Qed.

Lemma assign_atomic (o : obj) (k : string) (v : value) :
  atomic v = true -> assignMergeValue o k v = Props.set o k v.
Proof. destruct v; simpl; intros H; try discriminate; reflexivity. Qed.

(** An atomic value of the source replaces whatever the destination has. *)
Lemma baseMerge_get_assigned (src : obj) (k : string) (v : value) :
  wf_obj src = true ->
  Props.get src k = Some v ->
  atomic v = true ->
  forall dest, Props.get (baseMerge dest src) k = Some v.
Proof.
  induction src as [|[k' v'] rest IH]; intros Hwf Hg Hv dest.
  - discriminate.
  - apply wf_obj_cons in Hwf as (Hk & _ & Hwr). simpl in *.
    destruct (String.eqb k k') eqn:E.
    + apply String.eqb_eq in E. subst k'. injection Hg as ->.
      rewrite baseMerge_get_other by assumption.
      rewrite mergeValue_atomic, assign_atomic by assumption.
      apply get_set_same.
    + now apply IH.
Qed.

(** An [undefined] of the source leaves a property of the destination. *)
Lemma baseMerge_get_undefined (src : obj) (k : string) :
  wf_obj src = true ->
  Props.get src k = Some VUndefined ->
  forall dest,
    Props.has dest k = true ->
    Props.get (baseMerge dest src) k = Props.get dest k.
Proof.
  induction src as [|[k' v'] rest IH]; intros Hwf Hg dest Hd.
  - discriminate.
  - apply wf_obj_cons in Hwf as (Hk & _ & Hwr). simpl in *.
    destruct (String.eqb k k') eqn:E.
    + apply String.eqb_eq in E. subst k'. injection Hg as ->.
      rewrite baseMerge_get_other by assumption.
      simpl. now rewrite Hd.
    + assert (Hne : k <> k') by (intros ->; now rewrite String.eqb_refl in E).
      rewrite IH; auto using get_assign_other.
      unfold Props.has. now rewrite get_assign_other.
Qed.

(** Two objects under the same key are merged, not replaced. *)
Lemma baseMerge_get_nested (src : obj) (k : string) (so : obj) :
  wf_obj src = true ->
  Props.get src k = Some (VObject so) ->
  forall dest uo,
    Props.get dest k = Some (VObject uo) ->
    Props.get (baseMerge dest src) k = Some (VObject (baseMerge uo so)).
Proof.
  induction src as [|[k' v'] rest IH]; intros Hwf Hg dest uo Hd.
  - discriminate.
  - apply wf_obj_cons in Hwf as (Hk & _ & Hwr). simpl in *.
    destruct (String.eqb k k') eqn:E.
    + apply String.eqb_eq in E. subst k'. injection Hg as ->.
      rewrite baseMerge_get_other by assumption.
      unfold prop. rewrite Hd, mergeValue_object. simpl.
      apply get_set_same.
    + assert (Hne : k <> k') by (intros ->; now rewrite String.eqb_refl in E).
      apply IH; auto. now rewrite get_assign_other.
Qed.

Lemma has_spread (a b : obj) (k : string) :
  wf_obj a = true -> wf_obj b = true ->
  Props.has (spread a b) k = Props.has a k || Props.has b k.
Proof.
  intros Ha Hb. unfold Props.has. rewrite spread_get by assumption.
  destruct (Props.get b k), (Props.get a k); reflexivity.
Qed.



Section Handlers.
Variable split : obj -> Parts.
Variable undef : option Parts.
Variable chain : Chain.
Variable args : Args.
Variable self : nat.


(** C3. A [fixtureSelect] naming a fixture of the registry sets the selection
    to that component and fixture, resets [hasFixtureUpdate] to false
    whatever it was, mounts the registry's fixture in a new context, then
    posts [fixtureLoad] with the serializable part of that fixture, and last
    calls the error-dismissal hook when there is one. *)
Theorem fixtureSelect_known (data : MessageData) (w : World) (fx : Fixture) :
  type data = "fixtureSelect" ->
  registryEntry (fixtures args) (component data) (fixture data) = Some fx ->
  let r := onMessage split undef chain args self data w in
  r =
  {| completion := Normal tt;
     world := {| unbindPrev := unbindPrev w;
                 selected := Some (component data, fixture data);
                 hasFixtureUpdate := false;
                 listeners := listeners w;
                 closures := closures w |};
     events :=
       [Mount (renderer args) (proxies args) (VObject fx) self;
        PostMessage (fixtureLoad (serializable (split fx)))]
       ++ match dismissRuntimeErrors args with
          | Some hook => [CallHook hook]
          | None => []
          end |} /\
  selected (world r) = Some (component data, fixture data) /\
  hasFixtureUpdate (world r) = false.
Proof.
  intros Ht He. cbn zeta.
  assert (Hrun : onMessage split undef chain args self data w =
    {| completion := Normal tt;
       world := {| unbindPrev := unbindPrev w;
                   selected := Some (component data, fixture data);
                   hasFixtureUpdate := false;
                   listeners := listeners w;
                   closures := closures w |};
       events :=
         [Mount (renderer args) (proxies args) (VObject fx) self;
          PostMessage (fixtureLoad (serializable (split fx)))]
         ++ match dismissRuntimeErrors args with
            | Some hook => [CallHook hook]
            | None => []
            end |}).
  { unfold registryEntry in He. unfold onMessage, lookupFixture, readComponent.
    rewrite Ht. simpl.
    destruct (Props.get (fixtures args) (component data)) as [fs|];
      [|discriminate].
    simpl. unfold mbind, readFixture. rewrite He. simpl.
    destruct (dismissRuntimeErrors args); reflexivity. }
  rewrite Hrun. repeat split.
Qed.

(** The failure paths that change nothing and post nothing: a
    [fixtureSelect] of names under which neither the registry nor the
    prototype chain has anything only logs an error, a [fixtureEdit] without
    a selection only logs an error, and a message of any other type does
    nothing at all. *)
Lemma failure_paths_keep_state (data : MessageData) (w : World) :
  (type data = "fixtureSelect" ->
   registryEntry (fixtures args) (component data) (fixture data) = None ->
   objectPrototype chain (component data) = VUndefined ->
   objectPrototype chain (fixture data) = VUndefined ->
   onMessage split undef chain args self data w =
   {| completion := Normal tt; world := w;
      events := [ConsoleError (missingFixture (component data) (fixture data))] |})
  /\
  (type data = "fixtureEdit" ->
   selected w = None ->
   onMessage split undef chain args self data w =
   {| completion := Normal tt; world := w;
      events := [ConsoleError "[Cosmos] No selected fixture to edit"] |})
  /\
  (type data <> "fixtureSelect" ->
   type data <> "fixtureEdit" ->
   onMessage split undef chain args self data w =
   {| completion := Normal tt; world := w; events := [] |}).
Proof.
  unfold onMessage, registryEntry, readComponent. repeat split.
  - intros Ht He Hc Hf. rewrite Ht. simpl.
    destruct (Props.get (fixtures args) (component data)) as [fs|]; simpl.
    + unfold mbind, readFixture. rewrite He, Hf. reflexivity.
    + rewrite Hc. reflexivity.
  - intros Ht Hs. rewrite Ht. simpl.
    unfold mbind, gets. simpl. now rewrite Hs.
  - intros H1 H2. apply String.eqb_neq in H1, H2. now rewrite H1, H2.
Qed.

(** C6, at the input where the code breaks it.  The guard of a
    [fixtureSelect] reads the registry through the prototype chain: when the
    names are absent from the registry and yet the chain has a truthy value
    under them, the handler does not log and return: it selects the names,
    resets [hasFixtureUpdate] and mounts the value found. *)
Theorem absent_select_selects
  (data : MessageData) (w : World) (found : value) :
  type data = "fixtureSelect" ->
  registryEntry (fixtures args) (component data) (fixture data) = None ->
  componentTruthy (readComponent chain (fixtures args) (component data)) = true ->
  completion (lookupFixture chain (fixtures args) (component data)
                (fixture data) w) = Normal found ->
  truthy found = true ->
  let r := onMessage split undef chain args self data w in
  selected (world r) = Some (component data, fixture data) /\
  hasFixtureUpdate (world r) = false /\
  mounts (events r) = [Mount (renderer args) (proxies args) found self] /\
  consoleErrors (events r) = [].
Proof.
  intros Ht _ Hx Hl Hf. cbn zeta.
  destruct w as [u s h ls cs].
  unfold onMessage, lookupFixture in *. rewrite Ht. simpl. rewrite Hx.
  destruct (readComponent chain (fixtures args) (component data))
    as [fs|v]; unfold mbind, readFixture, loadFixture, splitParts in *;
    cbv [mbind ret throw gets modify emit postMessageToParent] in *;
    simpl in *;
    repeat (break_match; simpl in *; try discriminate);
    try (injection Hl as <-); try (rewrite Hf in *); try discriminate;
    repeat split.
Qed.

(** C8. Every update bubbling up from the mounted context sets
    [hasFixtureUpdate], posts [fixtureUpdate] with the serializable part of
    the changed fixture part, and leaves the selection (and everything else)
    as it was. *)
Theorem onContextUpdate_spec (fixturePart : obj) (w : World) :
  onContextUpdate split undef chain fixturePart w =
  {| completion := Normal tt;
     world := set_hasFixtureUpdate true w;
     events :=
       [PostMessage
          (fixtureUpdate (serializable (split fixturePart)))] |}
  /\ hasFixtureUpdate (world (onContextUpdate split undef chain fixturePart w)) = true
  /\ selected (world (onContextUpdate split undef chain fixturePart w)) = selected w.
Proof. repeat split. Qed.


End Handlers.

(** ** Listeners along a run *)

Lemma mbind_normal {A B} (m : M A) (k : A -> M B) (w : World) (a : A) :
  completion (m w) = Normal a ->
  (x <- m ;; k x) w =
  {| completion := completion (k a (world (m w)));
     world := world (k a (world (m w)));
     events := events (m w) ++ events (k a (world (m w))) |}.
Proof.
  unfold mbind. destruct (m w) as [c w1 e1]. simpl. intros ->.
  now destruct (k a w1).
Qed.

Lemma replay_quiet (evs : list Event) (active : list nat) :
  existsb isListenerEvent evs = false -> replay active evs = active.
Proof.
  unfold replay. induction evs as [|e rest IH]; simpl; auto.
  intros H. apply orb_false_iff in H as [He Hr].
  rewrite <- (IH Hr) at 2. now destruct e.
Qed.

Lemma atMostOne_quiet (evs : list Event) (active : list nat) :
  existsb isListenerEvent evs = false ->
  atMostOneListener active evs = Nat.leb (List.length active) 1.
Proof.
  induction evs as [|e rest IH]; simpl; intros H.
  - now rewrite andb_true_r.
  - apply orb_false_iff in H as [He Hr].
    replace (applyListenerEvent active e) with active by (now destruct e).
    rewrite IH by assumption. now destruct (Nat.leb (List.length active) 1).
Qed.

Lemma replay_app (e1 e2 : list Event) (active : list nat) :
  replay active (e1 ++ e2) = replay (replay active e1) e2.
Proof. unfold replay. apply fold_left_app. Qed.

Lemma atMostOne_app (e1 e2 : list Event) (active : list nat) :
  atMostOneListener active (e1 ++ e2) =
  atMostOneListener active e1 && atMostOneListener (replay active e1) e2.
Proof.
  revert active. induction e1 as [|e rest IH]; intros active; simpl.
  - unfold replay. simpl. destruct e2; simpl.
    + now destruct (Nat.leb (List.length active) 1).
    + now destruct (Nat.leb (List.length active) 1).
  - rewrite IH. unfold replay. simpl. now rewrite andb_assoc.
Qed.

Section Runs.
Variable split : obj -> Parts.
Variable undef : option Parts.
Variable chain : Chain.

Lemma onMessage_quiet (args : Args) (self : nat) (data : MessageData) :
  quiet (detached (onMessage split undef chain args self data)).
Proof.
  intros w. unfold onMessage, loadFixture, applyFixturePart, lookupFixture,
    readFixture, readComponent, componentTruthy, splitParts,
    postMessageToParent, consoleError.
  run_cases; repeat split.
Qed.

Lemma onContextUpdate_quiet (fixturePart : obj) :
  quiet (onContextUpdate split undef chain fixturePart).
Proof. intros w. repeat split. Qed.

Lemma forEach_quiet {A} (f : A -> M unit) (l : list A) :
  (forall x, quiet (f x)) -> quiet (forEach l f).
Proof.
  intros Hf. induction l as [|x rest IH]; intros w; simpl.
  - repeat split.
  - destruct (Hf x w) as (Hc & Hu & Hl & Hcl & He).
    destruct (IH (world (f x w))) as (Hc' & Hu' & Hl' & Hcl' & He').
    rewrite (mbind_normal _ _ _ Hc). simpl.
    rewrite existsb_app, He, He'. repeat split; congruence.
Qed.

Lemma dispatchMessage_quiet (data : MessageData) :
  quiet (dispatchMessage split undef chain data).
Proof.
  intros w.
  assert (H : quiet (forEach (listeners w)
    (fun id =>
       match nth_error (closures w) id with
       | Some args => detached (onMessage split undef chain args id data)
       | None => ret tt
       end))).
  { apply forEach_quiet. intros id. destruct (nth_error (closures w) id).
    - apply onMessage_quiet.
    - intros w'. repeat split. }
  specialize (H w). unfold dispatchMessage, mbind, gets. simpl.
  match goal with |- context [forEach ?l ?f w] => destruct (forEach l f w) end.
  exact H.
Qed.

Lemma traffic_quiet (l : list Action) :
  forallb isTraffic l = true -> quiet (run split undef chain l).
Proof.
  unfold run. induction l as [|a rest IH]; simpl; intros H w.
  - repeat split.
  - apply andb_true_iff in H as [Ha Hr].
    assert (Hq : quiet (step split undef chain a)).
    { destruct a; try discriminate; simpl.
      - apply dispatchMessage_quiet.
      - apply onContextUpdate_quiet. }
    destruct (Hq w) as (Hc & Hu & Hl & Hcl & He).
    destruct (IH Hr (world (step split undef chain a w)))
      as (Hc' & Hu' & Hl' & Hcl' & He').
    rewrite (mbind_normal _ _ _ Hc). simpl.
    rewrite existsb_app, He, He'. repeat split; congruence.
Qed.

Lemma oneBinding_length (w : World) :
  oneBinding w -> Nat.leb (List.length (listeners w)) 1 = true.
Proof. unfold oneBinding. intros ->. now destruct (unbindPrev w). Qed.

Lemma quiet_keeps (m : M unit) : quiet m -> keepsOneBinding m.
Proof.
  intros Hq w Hw. destruct (Hq w) as (Hc & Hu & Hl & _ & He).
  repeat split; auto.
  - unfold oneBinding in *. now rewrite Hl, Hu.
  - rewrite atMostOne_quiet by assumption. now apply oneBinding_length.
  - rewrite replay_quiet by assumption. congruence.
Qed.

Lemma destroy_keeps : keepsOneBinding destroy.
Proof.
  intros [u s h ls cs]. unfold oneBinding. simpl. intros ->.
  unfold destroy, callUnbindPrev, unbind, removeEventListener.
  destruct u as [u|]; cbv [mbind ret gets modify emit]; simpl;
    rewrite ?Nat.eqb_refl; simpl; repeat split.
Qed.

Lemma connectLoader_keeps (args : Args) :
  keepsOneBinding (detached (connectLoader split undef chain args)).
Proof.
  intros [u s h ls cs]. unfold oneBinding. simpl. intros ->.
  unfold connectLoader, callUnbindPrev, unbind, bind, removeEventListener,
    addEventListener, newClosures, loadFixture, lookupFixture, readFixture, readComponent, componentTruthy,
    splitParts,
    postMessageToParent.
  destruct u as [u|]; cbv [mbind ret throw gets modify emit detached]; simpl;
    rewrite ?Nat.eqb_refl; simpl.
  - repeat (break_match; simpl; try discriminate);
      rewrite ?Nat.eqb_refl in *; simpl in *; try discriminate; repeat split.
  - repeat split.
Qed.

Lemma step_keeps (a : Action) : keepsOneBinding (step split undef chain a).
Proof.
  destruct a; simpl.
  - apply connectLoader_keeps.
  - apply destroy_keeps.
  - apply quiet_keeps, dispatchMessage_quiet.
  - apply quiet_keeps, onContextUpdate_quiet.
Qed.

Lemma run_keeps (l : list Action) : keepsOneBinding (run split undef chain l).
Proof.
  unfold run. induction l as [|a rest IH]; intros w Hw; simpl.
  - repeat split; auto. unfold ret. simpl. rewrite andb_true_r.
    now apply oneBinding_length.
  - destruct (step_keeps a Hw) as (Hc & Hi & Ha & Hr).
    destruct (IH _ Hi) as (Hc' & Hi' & Ha' & Hr').
    rewrite (mbind_normal _ _ _ Hc). simpl.
    rewrite atMostOne_app, replay_app, Ha, Hr, Ha', Hr'. auto.
Qed.

Lemma run_app (l1 l2 : list Action) (w : World) :
  run split undef chain (l1 ++ l2) w =
  (run split undef chain l1 ;; run split undef chain l2) w.
Proof.
  unfold run. revert w. induction l1 as [|a rest IH]; intros w; simpl.
  - unfold mbind, ret. simpl. now destruct (forEach l2 (step split undef chain) w).
  - unfold mbind in *. destruct (step split undef chain a w) as [[[]|e] w1 e1]; auto.
    rewrite IH.
    destruct (forEach rest (step split undef chain) w1) as [[[]|e] w2 e2]; auto.
    destruct (forEach l2 (step split undef chain) w2) as [c3 w3 e3].
    now rewrite app_assoc.
Qed.


Lemma oneBinding_init : oneBinding init.
Proof. reflexivity. Qed.

Lemma connectLoader_step (args : Args) (w : World) :
  let r := step split undef chain (CallConnectLoader args) w in
  completion r = Normal tt /\
  closures (world r) = closures w ++ [args] /\
  unbindPrev (world r) = Some (List.length (closures w)) /\
  selected (world r) = selected w /\
  hasFixtureUpdate (world r) = hasFixtureUpdate w /\
  In (AddEventListener (List.length (closures w))) (events r) /\
  (forall u, unbindPrev w = Some u -> In (RemoveEventListener u) (events r)).
Proof.
  destruct w as [u s h ls cs]. simpl.
  unfold connectLoader, callUnbindPrev, unbind, bind, removeEventListener,
    addEventListener, newClosures, loadFixture, lookupFixture, readFixture, readComponent, componentTruthy,
    splitParts,
    postMessageToParent.
  destruct u as [u|]; cbv [mbind ret throw gets modify emit detached]; simpl.
  - repeat (break_match; simpl; try discriminate);
      repeat split; auto; intros ? [= <-]; auto.
  - repeat split; auto. discriminate.
Qed.

Lemma run_cons_events (a : Action) (l : list Action) (w : World) :
  oneBinding w ->
  let r1 := step split undef chain a w in
  let r2 := run split undef chain l (world r1) in
  events (run split undef chain (a :: l) w) = events r1 ++ events r2 /\
  world (run split undef chain (a :: l) w) = world r2.
Proof.
  intros Hw. destruct (step_keeps a Hw) as (Hc & _).
  unfold run. simpl. now rewrite (mbind_normal _ _ _ Hc).
Qed.

(** A run of calls of [connectLoader], one after the other. *)
Lemma connectLoader_calls (bs : list Args) (b : Args) :
  forall w,
    oneBinding w ->
    let r := run split undef chain (map CallConnectLoader (bs ++ [b])) w in
    let c0 := List.length (closures w) in
    listeners (world r) = [c0 + List.length bs] /\
    In (AddEventListener (c0 + List.length bs)) (events r) /\
    (forall u, unbindPrev w = Some u -> In (RemoveEventListener u) (events r)) /\
    (forall i, i < List.length bs ->
       In (AddEventListener (c0 + i)) (events r) /\
       In (RemoveEventListener (c0 + i)) (events r)).
Proof.
  induction bs as [|a rest IH]; intros w Hw; cbn zeta.
  - simpl app. cbn [map].
    destruct (run_cons_events (CallConnectLoader b) [] Hw) as [He Hwd].
    destruct (connectLoader_step b w) as (_ & _ & Hu & _ & _ & Ha & Hr).
    destruct (step_keeps (CallConnectLoader b) Hw) as (_ & Hi & _).
    rewrite He, Hwd. unfold run. simpl. rewrite app_nil_r, Nat.add_0_r.
    unfold oneBinding in Hi. rewrite Hu in Hi.
    split; [exact Hi|]. split; [exact Ha|]. split; [exact Hr|].
    intros n Hn. inversion Hn.
  - simpl app. cbn [map].
    destruct (run_cons_events (CallConnectLoader a)
                (map CallConnectLoader (rest ++ [b])) Hw) as [He Hwd].
    destruct (connectLoader_step a w) as (_ & Hcl & Hu & _ & _ & Ha & Hr).
    destruct (step_keeps (CallConnectLoader a) Hw) as (_ & Hi & _).
    destruct (IH _ Hi) as (Hl' & Ha' & Hr' & Hall).
    rewrite He, Hwd. rewrite Hcl, length_app in Hl', Ha', Hall.
    cbn [List.length] in *.
    replace (List.length (closures w) + S (List.length rest))
      with (List.length (closures w) + 1 + List.length rest) by lia.
    split; [exact Hl'|]. split; [auto using in_or_app|].
    split; [auto using in_or_app|].
    intros [|n] Hn.
    + rewrite Nat.add_0_r. split; apply in_or_app; auto.
    + replace (List.length (closures w) + S n)
        with (List.length (closures w) + 1 + n) by lia.
      assert (Hn' : n < List.length rest) by lia.
      destruct (Hall n Hn'). split; apply in_or_app; auto.
Qed.

(** C1. Whatever has happened before, at no point of a run is more than one
    message listener registered; and after [N] calls of [connectLoader] in a
    row, the listener of the last call is the only one registered, each of
    the other [N - 1] having been registered and then removed. *)
Theorem single_listener (l : list Action) (bs : list Args) (b : Args) :
  let r0 := run split undef chain l init in
  let r := run split undef chain (l ++ map CallConnectLoader (bs ++ [b])) init in
  let c0 := List.length (closures (world r0)) in
  atMostOneListener [] (events r) = true /\
  listeners (world r) = [c0 + List.length bs] /\
  (forall i, i < List.length bs ->
     In (AddEventListener (c0 + i)) (events r) /\
     In (RemoveEventListener (c0 + i)) (events r) /\
     ~ In (c0 + i) (listeners (world r))).
Proof.
  cbn zeta.
  split; [apply (run_keeps _ oneBinding_init)|].
  destruct (run_keeps l oneBinding_init) as (Hc & Hi & _).
  destruct (connectLoader_calls bs b Hi) as (Hl & _ & _ & Hall).
  rewrite run_app, (mbind_normal _ _ _ Hc). simpl.
  split; [exact Hl|].
  intros i Hlt. destruct (Hall i Hlt) as [Ha Hr].
  repeat split; auto using in_or_app.
  rewrite Hl. simpl. lia.
Qed.

End Runs.

(** ** Binding, rebinding, destroying *)

Lemma addListener_In (f : nat) (ls : list nat) : In f (addListener f ls).
Proof.
  unfold addListener. destruct (existsb (Nat.eqb f) ls) eqn:E.
  - apply existsb_exists in E as (g & Hg & Heq).
    apply Nat.eqb_eq in Heq. now subst g.
  - apply in_or_app. right. now left.
Qed.

Lemma removeListener_not_In (f : nat) (ls : list nat) :
  ~ In f (removeListener f ls).
Proof.
  unfold removeListener. intros H. apply filter_In in H as [_ H].
  now rewrite Nat.eqb_refl in H.
Qed.

Section Bindings.
Variable split : obj -> Parts.
Variable undef : option Parts.
Variable chain : Chain.

Ltac unfold_loader :=
  unfold connectLoader, destroy, callUnbindPrev, unbind, bind,
    removeEventListener, addEventListener, newClosures, onMessage,
    loadFixture, applyFixturePart, lookupFixture, readFixture, readComponent, componentTruthy,
    splitParts,
    postMessageToParent, consoleError;
  cbv [mbind ret throw gets modify emit detached]; simpl.

(** What a call of [connectLoader] does to the state, whether its promise
    resolves or rejects. *)
Lemma connectLoader_world (args : Args) (w : World) :
  let r := connectLoader split undef chain args w in
  let self := List.length (closures w) in
  (completion r = Normal destroy \/ completion r = Throw TypeError) /\
  closures (world r) = closures w ++ [args] /\
  unbindPrev (world r) = Some self /\
  selected (world r) = selected w /\
  hasFixtureUpdate (world r) = hasFixtureUpdate w /\
  listeners (world r) =
    addListener self
      (match unbindPrev w with
       | Some u => removeListener u (listeners w)
       | None => listeners w
       end).
Proof.
  destruct w as [u s h ls cs]. unfold_loader.
  destruct u as [u|]; simpl.
  - repeat (break_match; simpl; try discriminate); repeat split; auto.
  - repeat split; auto.
Qed.

(** C2. On a call of [connectLoader] that finds a binding: with a selection
    whose fixture the registry has and [hasFixtureUpdate] false, the
    registry's fixture for the selection is mounted, once; with
    [hasFixtureUpdate] true, or without a selection, nothing is mounted. *)
Theorem rebind_resync (args : Args) (w : World) (u : nat) :
  unbindPrev w = Some u ->
  let r := connectLoader split undef chain args w in
  (forall c f fx,
     selected w = Some (c, f) ->
     hasFixtureUpdate w = false ->
     registryEntry (fixtures args) c f = Some fx ->
     mounts (events r) =
     [Mount (renderer args) (proxies args) (VObject fx) (List.length (closures w))]) /\
  (hasFixtureUpdate w = true -> mounts (events r) = []) /\
  (selected w = None -> mounts (events r) = []).
Proof.
  destruct w as [u' s h ls cs]. simpl. intros ->. unfold registryEntry.
  split; [|split].
  - intros c f fx -> -> He. unfold_loader.
    destruct (Props.get (fixtures args) c) as [fs|]; [|discriminate].
    rewrite He. reflexivity.
  - intros ->. unfold_loader. destruct s as [[c f]|]; reflexivity.
  - intros ->. unfold_loader. reflexivity.
Qed.


(** *** The fixture names *)

Lemma extractFixtureNames_get (fixtures : Fixtures) (c : string) :
  Props.get (extractFixtureNames fixtures) c =
  option_map (fun fs => Props.keys fs) (Props.get fixtures c).
Proof.
  unfold extractFixtureNames.
  set (step := fun (acc : FixtureNames) (next : string) =>
         Props.set acc next
           match Props.get fixtures next with
           | Some fs => Props.keys fs
           | None => []
           end).
  assert (H : forall ks acc,
    Props.get (fold_left step ks acc) c =
    if existsb (String.eqb c) ks
    then Some match Props.get fixtures c with
              | Some fs => Props.keys fs
              | None => []
              end
    else Props.get acc c).
  { induction ks as [|k rest IH]; intros acc; simpl; auto.
    rewrite IH. destruct (String.eqb c k) eqn:E; simpl.
    - apply String.eqb_eq in E. subst k.
      destruct (existsb (String.eqb c) rest); auto.
      unfold step. apply get_set_same.
    - destruct (existsb (String.eqb c) rest); auto.
      unfold step. apply get_set_other.
      intros ->. now rewrite String.eqb_refl in E. }
  rewrite H, <- has_keys. unfold Props.has.
  now destruct (Props.get fixtures c).
Qed.

Lemma nodupb_app_head (l1 l2 : list string) (k : string) :
  nodupb (l1 ++ k :: l2) = true -> existsb (String.eqb k) l1 = false.
Proof.
  induction l1 as [|x rest IH]; simpl; auto.
  intros H. apply andb_true_iff in H as [Hx Hr].
  rewrite (IH Hr), orb_false_r.
  apply negb_true_iff in Hx. rewrite existsb_app in Hx.
  apply orb_false_iff in Hx as [_ Hx]. simpl in Hx.
  apply orb_false_iff in Hx as [Hx _]. now rewrite String.eqb_sym.
Qed.

Lemma fixtureNamesOf_keys (fixtures : Fixtures) :
  Props.keys (fixtureNamesOf fixtures) = Props.keys fixtures.
Proof.
  unfold Props.keys, fixtureNamesOf. rewrite map_map. reflexivity.
Qed.

Lemma extractFixtureNames_map (fixtures : Fixtures) :
  nodupb (Props.keys fixtures) = true ->
  extractFixtureNames fixtures = fixtureNamesOf fixtures.
Proof.
  intros Hnd. unfold extractFixtureNames.
  set (step := fun (acc : FixtureNames) (next : string) =>
         Props.set acc next
           match Props.get fixtures next with
           | Some fs => Props.keys fs
           | None => []
           end).
  assert (H : forall suf pre,
    fixtures = pre ++ suf ->
    fold_left step (Props.keys suf) (fixtureNamesOf pre) =
    fixtureNamesOf (pre ++ suf)).
  { induction suf as [|[c fs] rest IH]; intros pre Heq; simpl.
    - now rewrite app_nil_r.
    - assert (Hc : Props.has pre c = false).
      { rewrite has_keys. apply nodupb_app_head with (l2 := Props.keys rest).
        rewrite Heq in Hnd. unfold Props.keys in *.
        now rewrite map_app in Hnd. }
      assert (Hg : Props.get fixtures c = Some fs).
      { rewrite Heq, get_app. unfold Props.has in Hc.
        destruct (Props.get pre c); [discriminate|].
        simpl. now rewrite String.eqb_refl. }
      unfold step at 2. rewrite Hg.
      rewrite set_absent
        by (now rewrite has_keys, fixtureNamesOf_keys, <- has_keys).
      replace (fixtureNamesOf pre ++ [(c, Props.keys fs)])
        with (fixtureNamesOf (pre ++ [(c, fs)]))
        by (unfold fixtureNamesOf; now rewrite map_app).
      rewrite IH by (now rewrite <- app_assoc).
      now rewrite <- app_assoc. }
  apply (H fixtures []). reflexivity.
Qed.

(** *** The announcement of a call *)

Lemma connectLoader_posts (args : Args) (w : World) :
  let r := connectLoader split undef chain args w in
  let names := extractFixtureNames (fixtures args) in
  if isFirstCall w
  then posted (events r) = [loaderReady names]
  else exists rest,
         posted (events r) = fixtureListUpdate names :: rest /\
         existsb isLoaderReady rest = false.
Proof.
  destruct w as [u s h ls cs]. unfold isFirstCall. simpl.
  destruct u as [u|]; unfold_loader; [|reflexivity].
  repeat (break_match; simpl; try discriminate); eexists; split;
    try reflexivity; reflexivity.
Qed.

Lemma bindingActive_run (l : list Action) :
  forall w,
    oneBinding w ->
    negb (isFirstCall (world (run split undef chain l w))) =
    fold_left
      (fun active a =>
         match a with
         | CallConnectLoader _ => true
         | CallDestroy => false
         | _ => active
         end) l (negb (isFirstCall w)).
Proof.
  induction l as [|a rest IH]; intros w Hw.
  - reflexivity.
  - destruct (run_cons_events split undef chain a rest Hw) as [_ Hwd].
    destruct (step_keeps split undef chain a Hw) as (_ & Hi & _).
    rewrite Hwd, (IH _ Hi). simpl. f_equal.
    unfold isFirstCall. destruct a.
    + destruct (connectLoader_step split undef chain args w) as (_ & _ & -> & _).
      reflexivity.
    + cbn [step]. unfold destroy, callUnbindPrev, unbind, removeEventListener.
      cbv [mbind ret gets modify emit].
      destruct (unbindPrev w) eqn:E; simpl; now rewrite ?E.
    + cbn [step].
      destruct (dispatchMessage_quiet split undef chain data w) as (_ & -> & _).
      reflexivity.
    + reflexivity.
Qed.

(** C5. A call of [connectLoader] with no binding active, be it the first
    call ever or the first after a [destroy], posts [loaderReady]; a call
    with a binding active posts [fixtureListUpdate] and never [loaderReady].
    In both the [fixtures] field gives, for every component of the registry,
    the list of the names of its fixtures, and no fixture body. *)
Theorem bind_announcement (l : list Action) (args : Args) :
  let w := world (run split undef chain l init) in
  let r := connectLoader split undef chain args w in
  let names := extractFixtureNames (fixtures args) in
  (if bindingActive l
   then exists rest,
          posted (events r) = fixtureListUpdate names :: rest /\
          existsb isLoaderReady rest = false
   else posted (events r) = [loaderReady names]) /\
  bindingActive (l ++ [CallConnectLoader args]) = true /\
  bindingActive (l ++ [CallDestroy]) = false /\
  (forall c,
     Props.get names c =
     option_map (fun fs => Props.keys fs) (Props.get (fixtures args) c)) /\
  (nodupb (Props.keys (fixtures args)) = true ->
   names = fixtureNamesOf (fixtures args)).
Proof.
  cbn zeta. split; [|split; [|split; [|split]]].
  - pose proof (connectLoader_posts args (world (run split undef chain l init))) as H.
    pose proof (bindingActive_run l oneBinding_init) as Ha.
    cbn zeta in H. unfold bindingActive. simpl in Ha. rewrite <- Ha.
    now destruct (isFirstCall (world (run split undef chain l init))).
  - unfold bindingActive. now rewrite fold_left_app.
  - unfold bindingActive. now rewrite fold_left_app.
  - apply extractFixtureNames_get.
  - apply extractFixtureNames_map.
Qed.


(** *** [destroy] *)

(** C7, amended. [destroy] on an active binding removes its listener and
    resets the selection and [hasFixtureUpdate] to empty and false; a second
    [destroy] does nothing; and [connectLoader] itself never changes the two:
    a call after a [destroy] starts with them empty and false, a call that
    replaces an active binding keeps the ones it finds. *)
Theorem destroy_resets (w : World) :
  (forall u,
     unbindPrev w = Some u ->
     destroy w =
     {| completion := Normal tt;
        world := {| unbindPrev := None; selected := None;
                    hasFixtureUpdate := false;
                    listeners := removeListener u (listeners w);
                    closures := closures w |};
        events := [RemoveEventListener u] |}) /\
  destroy (world (destroy w)) =
    {| completion := Normal tt; world := world (destroy w); events := [] |} /\
  (forall args,
     selected (world (connectLoader split undef chain args w)) = selected w /\
     hasFixtureUpdate (world (connectLoader split undef chain args w)) =
     hasFixtureUpdate w) /\
  (forall args u,
     unbindPrev w = Some u ->
     let r := connectLoader split undef chain args (world (destroy w)) in
     completion r = Normal destroy /\
     selected (world r) = None /\
     hasFixtureUpdate (world r) = false).
Proof.
  split; [|split; [|split]].
  - intros u Hu. destruct w as [u' s h ls cs]. simpl in Hu. subst u'.
    reflexivity.
  - destruct w as [[u|] s h ls cs]; reflexivity.
  - intros args.
    destruct (connectLoader_world args w) as (_ & _ & _ & Hs & Hh & _).
    auto.
  - intros args u Hu. destruct w as [u' s h ls cs]. simpl in Hu. subst u'.
    repeat split.
Qed.

(** C10. The [destroy] returned by a call of [connectLoader] that a later
    call has superseded is not inert: run while the later binding is active,
    whatever messages and updates have come in since, it removes the listener
    of the later call, the one registered, and resets the selection and
    [hasFixtureUpdate]. *)
Theorem superseded_destroy
  (a1 a2 : Args) (w : World) (destroy1 : M unit) (traffic : list Action) :
  let r1 := connectLoader split undef chain a1 w in
  let r2 := connectLoader split undef chain a2 (world r1) in
  let w3 := world (run split undef chain traffic (world r2)) in
  let id1 := List.length (closures w) in
  let id2 := S id1 in
  completion r1 = Normal destroy1 ->
  forallb isTraffic traffic = true ->
  In id2 (listeners w3) /\
  ~ In id1 (listeners w3) /\
  unbindPrev w3 = Some id2 /\
  destroy1 w3 =
  {| completion := Normal tt;
     world := {| unbindPrev := None; selected := None;
                 hasFixtureUpdate := false;
                 listeners := removeListener id2 (listeners w3);
                 closures := closures w ++ [a1; a2] |};
     events := [RemoveEventListener id2] |} /\
  ~ In id2 (listeners (world (destroy1 w3))).
Proof.
  cbn zeta. intros Hc Ht.
  destruct (connectLoader_world a1 w) as (Hd & Hcl & Hu & _ & _ & _).
  destruct (connectLoader_world a2 (world (connectLoader split undef chain a1 w)))
    as (_ & Hcl2 & Hu2 & _ & _ & Hl2).
  destruct (traffic_quiet split undef chain traffic Ht
              (world (connectLoader split undef chain a2
                        (world (connectLoader split undef chain a1 w)))))
    as (_ & Hu3 & Hl3 & Hcl3 & _).
  cbn zeta in *.
  rewrite Hcl, length_app, Nat.add_1_r in Hu2, Hl2.
  rewrite Hu in Hl2. rewrite Hcl, <- app_assoc in Hcl2. simpl in Hcl2.
  rewrite Hu2 in Hu3. rewrite Hl2 in Hl3. rewrite Hcl2 in Hcl3.
  assert (Hd1 : destroy1 = destroy).
  { destruct Hd as [Hd|Hd]; rewrite Hd in Hc; [now inversion Hc|discriminate]. }
  subst destroy1.
  set (w3 := world (run split undef chain traffic
                      (world (connectLoader split undef chain a2
                                (world (connectLoader split undef chain a1 w)))))) in *.
  assert (Hrun : destroy w3 =
    {| completion := Normal tt;
       world := {| unbindPrev := None; selected := None;
                   hasFixtureUpdate := false;
                   listeners :=
                     removeListener (S (List.length (closures w))) (listeners w3);
                   closures := closures w ++ [a1; a2] |};
       events := [RemoveEventListener (S (List.length (closures w)))] |}).
  { clearbody w3. destruct w3 as [u' s' h' ls' cs'].
    simpl in *. subst u' cs'. reflexivity. }
  split; [rewrite Hl3; apply addListener_In|].
  split.
  - rewrite Hl3. unfold addListener.
    pose proof (removeListener_not_In (List.length (closures w)) (listeners
      (world (connectLoader split undef chain a1 w)))) as Hn.
    destruct (existsb _ _); [exact Hn|].
    intros Hin. apply in_app_or in Hin as [Hin|[Hin|[]]]; [auto|lia].
  - split; [exact Hu3|]. split; [exact Hrun|].
    rewrite Hrun. simpl. apply removeListener_not_In.
Qed.

(** *** A selection the registry no longer has *)


End Bindings.

(** * Further properties of the loader *)

Section Further.
Variable split : obj -> Parts.
Variable undef : option Parts.
Variable chain : Chain.

(** ** What an edit can and cannot do to a fixture *)

Lemma applyFixturePart_edited (fx fixturePart : obj) (w : World) :
  applyFixturePart split undef chain (VObject fx) fixturePart w =
  {| completion := Normal (edited (split fx) fixturePart);
     world := w; events := [] |}.
Proof. reflexivity. Qed.

(** X8. A value of the edit body that is [null], a boolean, a number, a
    string or a function ends up in the edited fixture whatever the
    registered fixture holds under that key, in its serializable or in its
    unserializable part. *)
Theorem edit_value_wins
  (fx body merged : obj) (w : World) (k : string) (v : value) :
  wf_obj (serializable (split fx)) = true ->
  wf_obj body = true ->
  Props.get body k = Some v ->
  atomic v = true ->
  completion (applyFixturePart split undef chain (VObject fx) body w) = Normal merged ->
  Props.get merged k = Some v.
Proof.
  intros Hs Hb Hg Hv Hc. rewrite applyFixturePart_edited in Hc.
  injection Hc as <-. unfold edited, merge. simpl.
  apply baseMerge_get_assigned; auto using spread_wf.
  rewrite spread_get by assumption. now rewrite Hg.
Qed.

(** X9. An edit body that holds [undefined] under a key of the unserializable
    part does not erase it: the edited fixture keeps the unserializable
    value. *)
Theorem edit_undefined_keeps_unserializable
  (fx body merged : obj) (w : World) (k : string) :
  wf_obj (unserializable (split fx)) = true ->
  wf_obj (serializable (split fx)) = true ->
  wf_obj body = true ->
  Props.has (unserializable (split fx)) k = true ->
  Props.get body k = Some VUndefined ->
  completion (applyFixturePart split undef chain (VObject fx) body w) = Normal merged ->
  Props.get merged k = Props.get (unserializable (split fx)) k.
Proof.
  intros Hu Hs Hb Hk Hg Hc. rewrite applyFixturePart_edited in Hc.
  injection Hc as <-. unfold edited, merge. simpl.
  rewrite (baseMerge_copy _ Hu).
  apply baseMerge_get_undefined; auto using spread_wf.
  rewrite spread_get by assumption. now rewrite Hg.
Qed.

(** X10. When the two parts the splitter returns share no key and together
    hold the properties of the fixture, an edit with an empty body gives back
    a fixture with the properties of the registered one. *)
Theorem empty_edit_restores (fx merged : obj) (w : World) :
  wf_obj (unserializable (split fx)) = true ->
  wf_obj (serializable (split fx)) = true ->
  (forall k, Props.has (unserializable (split fx)) k = true ->
             Props.has (serializable (split fx)) k = false) ->
  (forall k, Props.get fx k =
             match Props.get (serializable (split fx)) k with
             | Some v => Some v
             | None => Props.get (unserializable (split fx)) k
             end) ->
  completion (applyFixturePart split undef chain (VObject fx) [] w) = Normal merged ->
  same_props merged fx.
Proof.
  intros Hu Hs Hdis Hpart Hc k. rewrite applyFixturePart_edited in Hc.
  injection Hc as <-.
  destruct (edited_get (split fx) [] k Hu Hs wf_obj_nil) as [H1 H2].
  rewrite Hpart.
  destruct (Props.has (unserializable (split fx)) k) eqn:E.
  - specialize (Hdis k E).
    rewrite H2 by (rewrite has_spread by auto using wf_obj_nil;
                   now rewrite Hdis).
    unfold Props.has in Hdis.
    now destruct (Props.get (serializable (split fx)) k).
  - rewrite (H1 eq_refl). simpl. unfold Props.has in E.
    destruct (Props.get (serializable (split fx)) k); auto.
    now destruct (Props.get (unserializable (split fx)) k).
Qed.

(** X11. When the unserializable part and the edit body both hold an object
    under a key, the edited fixture holds their merge: the nested properties
    the edit does not name are those of the unserializable part, and an
    atomic nested value of the edit is taken. *)
Theorem edit_merges_nested
  (fx body merged uo bo : obj) (w : World) (k : string) :
  wf_obj (unserializable (split fx)) = true ->
  wf_obj (serializable (split fx)) = true ->
  wf_obj body = true ->
  Props.get (unserializable (split fx)) k = Some (VObject uo) ->
  Props.get body k = Some (VObject bo) ->
  completion (applyFixturePart split undef chain (VObject fx) body w) = Normal merged ->
  exists mo,
    Props.get merged k = Some (VObject mo) /\
    (forall j, Props.has bo j = false -> Props.get mo j = Props.get uo j) /\
    (forall j v, Props.get bo j = Some v -> atomic v = true ->
                 Props.get mo j = Some v).
Proof.
  intros Hu Hs Hb Hgu Hgb Hc. rewrite applyFixturePart_edited in Hc.
  injection Hc as <-. exists (baseMerge uo bo).
  assert (Hbo : wf_obj bo = true) by exact (wf_obj_get _ _ Hb Hgb).
  split; [|split].
  - unfold edited, merge. simpl. rewrite (baseMerge_copy _ Hu).
    apply baseMerge_get_nested; auto using spread_wf.
    rewrite spread_get by assumption. now rewrite Hgb.
  - intros j Hj. now apply baseMerge_get_other.
  - intros j v Hj Hv. now apply baseMerge_get_assigned.
Qed.

Ltac unfold_all :=
  unfold connectLoader, destroy, callUnbindPrev, unbind, bind,
    removeEventListener, addEventListener, newClosures, onMessage,
    loadFixture, applyFixturePart, lookupFixture, readFixture, readComponent, componentTruthy,
    splitParts,
    postMessageToParent, consoleError;
  cbv [mbind ret throw gets modify emit detached]; simpl.

(** ** What a rebind and a message emit *)

(** X6. A call of [connectLoader] that replaces a binding, with a selection
    the registry has and [hasFixtureUpdate] false, resolves, and emits in
    this order: the removal of the old listener, the registration of the new
    one, [fixtureListUpdate], the mount of the registry's fixture, and
    [fixtureLoad] with its serializable part.  The error-dismissal hook is
    not called. *)
Theorem rebind_resync_events
  (args : Args) (w : World) (u : nat) (c f : string) (fx : Fixture) :
  unbindPrev w = Some u ->
  selected w = Some (c, f) ->
  hasFixtureUpdate w = false ->
  registryEntry (fixtures args) c f = Some fx ->
  let r := connectLoader split undef chain args w in
  let self := List.length (closures w) in
  completion r = Normal destroy /\
  events r =
  [RemoveEventListener u;
   AddEventListener self;
   PostMessage (fixtureListUpdate (extractFixtureNames (fixtures args)));
   Mount (renderer args) (proxies args) (VObject fx) self;
   PostMessage (fixtureLoad (serializable (split fx)))].
Proof.
  destruct w as [u' s h ls cs]. unfold registryEntry. simpl.
  intros -> -> -> He. unfold_all.
  destruct (Props.get (fixtures args) c) as [fs|]; [|discriminate].
  simpl. rewrite He. simpl. split; reflexivity.
Qed.

Lemma onMessage_edit
  (args : Args) (self : nat) (data : MessageData) (w : World)
  (c f : string) (fx : Fixture) :
  type data = "fixtureEdit" ->
  selected w = Some (c, f) ->
  registryEntry (fixtures args) c f = Some fx ->
  onMessage split undef chain args self data w =
  {| completion := Normal tt;
     world := set_hasFixtureUpdate true w;
     events := [Mount (renderer args) (proxies args)
                  (VObject (edited (split fx) (fixtureBody data))) self] |}.
Proof.
  destruct w as [u s h ls cs]. unfold registryEntry. simpl.
  intros Ht -> He. unfold_all. rewrite Ht. simpl.
  destruct (Props.get (fixtures args) c) as [fs|]; [|discriminate].
  simpl. rewrite He. reflexivity.
Qed.

(** X7. Edits do not accumulate: each [fixtureEdit] is applied to the
    fixture of the registry, so after an earlier edit a second one mounts
    the very fixture, and leaves the very state, it would have without the
    first. *)
Theorem edits_do_not_accumulate
  (args : Args) (self : nat) (first second : MessageData) (w : World)
  (c f : string) (fx : Fixture) :
  type first = "fixtureEdit" ->
  type second = "fixtureEdit" ->
  selected w = Some (c, f) ->
  registryEntry (fixtures args) c f = Some fx ->
  let w1 := world (onMessage split undef chain args self first w) in
  onMessage split undef chain args self second w1 =
  onMessage split undef chain args self second w /\
  events (onMessage split undef chain args self second w1) =
  [Mount (renderer args) (proxies args)
     (VObject (edited (split fx) (fixtureBody second))) self].
Proof.
  intros H1 H2 Hs He. cbn zeta.
  rewrite (onMessage_edit args self first w H1 Hs He). simpl.
  rewrite (onMessage_edit args self second w H2 Hs He).
  rewrite (onMessage_edit args self second (set_hasFixtureUpdate true w)
             (c := c) (f := f) H2 Hs He).
  split; reflexivity.
Qed.

(** X12. Whatever the message and the state, its handler mounts at most
    once, posts at most one message, which is a [fixtureLoad], posts none
    unless the message is a [fixtureSelect], and calls no hook but the one of
    its call, and that only for a [fixtureSelect]. *)
Theorem onMessage_effects_bounded
  (args : Args) (self : nat) (data : MessageData) (w : World) :
  let evs := events (onMessage split undef chain args self data w) in
  List.length (mounts evs) <= 1 /\
  List.length (posted evs) <= 1 /\
  forallb isFixtureLoad (posted evs) = true /\
  (type data <> "fixtureSelect" -> posted evs = []) /\
  (forall hook, In (CallHook hook) evs ->
     type data = "fixtureSelect" /\ dismissRuntimeErrors args = Some hook).
Proof.
  cbn zeta. destruct w as [u s h ls cs]. unfold_all.
  destruct (String.eqb (type data) "fixtureSelect") eqn:E1.
  - apply String.eqb_eq in E1.
    repeat (break_match; simpl; try discriminate);
      (split; [lia|]); (split; [lia|]); (split; [reflexivity|]);
      (split; [congruence|]); intros hook Hin; simpl in Hin;
      repeat (destruct Hin as [Hin|Hin]; try discriminate);
      try contradiction; split; congruence.
  - repeat (break_match; simpl; try discriminate);
      (split; [lia|]); (split; [lia|]); (split; [reflexivity|]);
      (split; [reflexivity|]); intros hook Hin; simpl in Hin;
      repeat (destruct Hin as [Hin|Hin]; try discriminate);
      contradiction.
Qed.

(** ** Messages and bindings along a run *)

Lemma dispatchMessage_unbound (data : MessageData) (w : World) :
  listeners w = [] ->
  dispatchMessage split undef chain data w =
  {| completion := Normal tt; world := w; events := [] |}.
Proof.
  intros H. unfold dispatchMessage, mbind, gets. simpl. now rewrite H.
Qed.

Lemma dispatchMessage_bound
  (data : MessageData) (w : World) (u : nat) (args : Args) :
  listeners w = [u] ->
  nth_error (closures w) u = Some args ->
  dispatchMessage split undef chain data w =
  detached (onMessage split undef chain args u data) w.
Proof.
  intros Hl Hn. unfold dispatchMessage, mbind, gets. simpl.
  rewrite Hl. simpl. rewrite Hn. unfold mbind, ret, detached.
  destruct (onMessage split undef chain args u data w) as [[[]|e] w1 e1];
    simpl; now rewrite app_nil_r.
Qed.

Lemma settled_init : settled init.
Proof. split; reflexivity. Qed.

Lemma step_settled (a : Action) (w : World) :
  settled w -> settled (world (step split undef chain a w)).
Proof.
  intros [Hone Hsel].
  destruct (step_keeps split undef chain a Hone) as (_ & Hone' & _).
  split; [exact Hone'|]. destruct a.
  - destruct (connectLoader_step split undef chain args w) as (_ & _ & Hu & _).
    intros H. rewrite Hu in H. discriminate.
  - cbn [step]. destruct w as [[u|] s h ls cs]; simpl in *; auto.
  - cbn [step]. intros H.
    destruct (dispatchMessage_quiet split undef chain data w) as (_ & Hu & _).
    rewrite Hu in H. unfold oneBinding in Hone. rewrite H in Hone.
    rewrite (dispatchMessage_unbound data w Hone). simpl. auto.
  - cbn [step]. simpl. exact Hsel.
Qed.

Lemma run_settled (l : list Action) :
  forall w, settled w -> settled (world (run split undef chain l w)).
Proof.
  induction l as [|a rest IH]; intros w Hw.
  - exact Hw.
  - destruct (run_cons_events split undef chain a rest (proj1 Hw)) as [_ Hwd].
    rewrite Hwd. apply IH. now apply step_settled.
Qed.

(** X1. After any run there is a selection only while a binding is active,
    and then exactly the listener of that binding is registered; with no
    binding active, there is no selection and no listener. *)
Theorem selection_needs_binding (l : list Action) :
  let w := world (run split undef chain l init) in
  (forall c f,
     selected w = Some (c, f) ->
     bindingActive l = true /\
     exists u, unbindPrev w = Some u /\ listeners w = [u]) /\
  (bindingActive l = false -> selected w = None /\ listeners w = []).
Proof.
  cbn zeta.
  destruct (run_settled l settled_init) as [Hone Hsel].
  pose proof (bindingActive_run split undef chain l oneBinding_init) as Ha.
  simpl in Ha. fold (bindingActive l) in Ha.
  unfold isFirstCall, oneBinding in *.
  destruct (unbindPrev (world (run split undef chain l init))) as [u|];
    simpl in Ha; rewrite <- Ha.
  - split; [|discriminate]. intros c f _. split; [reflexivity|].
    exists u. auto.
  - split; [|auto]. intros c f Hs. rewrite Hsel in Hs by reflexivity.
    discriminate.
Qed.

(** X2. A message that arrives while no binding is active, before the first
    call of [connectLoader] or after a [destroy], is dropped: nothing is
    emitted and the state stays as it is. *)
Theorem message_without_binding (l : list Action) (data : MessageData) :
  bindingActive l = false ->
  let w := world (run split undef chain l init) in
  step split undef chain (WindowMessage data) w =
  {| completion := Normal tt; world := w; events := [] |}.
Proof.
  intros Ha. cbn zeta. cbn [step].
  apply dispatchMessage_unbound.
  destruct (run_settled l settled_init) as [Hone _].
  pose proof (bindingActive_run split undef chain l oneBinding_init) as Hb.
  simpl in Hb. fold (bindingActive l) in Hb. rewrite Ha in Hb.
  unfold isFirstCall, oneBinding in *.
  destruct (unbindPrev (world (run split undef chain l init))); [discriminate|].
  exact Hone.
Qed.

(** X3. A message is handled once, by the handler of the latest call of
    [connectLoader] and against the registry of that call, however many
    calls came before and whatever messages and updates came since. *)
Theorem message_to_latest_call
  (l traffic : list Action) (args : Args) (data : MessageData) :
  forallb isTraffic traffic = true ->
  let self := List.length (closures (world (run split undef chain l init))) in
  let w := world (run split undef chain (l ++ CallConnectLoader args :: traffic)
                    init) in
  listeners w = [self] /\
  nth_error (closures w) self = Some args /\
  step split undef chain (WindowMessage data) w =
  detached (onMessage split undef chain args self data) w.
Proof.
  intros Ht. cbn zeta.
  destruct (run_keeps split undef chain l oneBinding_init) as (Hc & Hone & _).
  rewrite run_app, (mbind_normal _ _ _ Hc). cbn [world].
  set (w0 := world (run split undef chain l init)) in *.
  destruct (run_cons_events split undef chain (CallConnectLoader args) traffic Hone)
    as [_ Hwd].
  rewrite Hwd.
  destruct (connectLoader_step split undef chain args w0)
    as (_ & Hcl & Hu & _).
  destruct (step_keeps split undef chain (CallConnectLoader args) Hone)
    as (_ & Hone1 & _).
  unfold oneBinding in Hone1. rewrite Hu in Hone1.
  destruct (traffic_quiet split undef chain traffic Ht
              (world (step split undef chain (CallConnectLoader args) w0)))
    as (_ & _ & Hl2 & Hcl2 & _).
  rewrite Hone1 in Hl2. rewrite Hcl in Hcl2.
  assert (Hn : nth_error
                 (closures (world (run split undef chain traffic
                    (world (step split undef chain (CallConnectLoader args) w0)))))
                 (List.length (closures w0)) = Some args).
  { rewrite Hcl2, nth_error_app2, Nat.sub_diag by lia. reflexivity. }
  split; [exact Hl2|]. split; [exact Hn|].
  cbn [step]. now apply dispatchMessage_bound.
Qed.

(** ** Mounts along a run *)

Lemma mounts_app (e1 e2 : list Event) :
  mounts (e1 ++ e2) = mounts e1 ++ mounts e2.
Proof. apply filter_app. Qed.

Lemma onMessage_mounts
  (args : Args) (self : nat) (data : MessageData) (w : World) :
  List.length
    (mounts (events (detached (onMessage split undef chain args self data) w))) <= 1.
Proof.
  destruct w as [u s h ls cs]. unfold_all.
  repeat (break_match; simpl; try discriminate); lia.
Qed.

Lemma step_mounts (a : Action) (w : World) :
  oneBinding w ->
  List.length (mounts (events (step split undef chain a w))) <=
  if mayMount a then 1 else 0.
Proof.
  intros Hone. destruct a; cbn [step mayMount].
  - destruct w as [u s h ls cs]. unfold_all.
    repeat (break_match; simpl; try discriminate); lia.
  - destruct w as [[u|] s h ls cs]; simpl; lia.
  - unfold oneBinding in Hone.
    destruct (unbindPrev w) as [u|].
    + destruct (nth_error (closures w) u) as [args|] eqn:En.
      * rewrite (dispatchMessage_bound data w Hone En).
        apply onMessage_mounts.
      * unfold dispatchMessage, mbind, gets. simpl. rewrite Hone. simpl.
        rewrite En. simpl. lia.
    + rewrite (dispatchMessage_unbound data w Hone). simpl. lia.
  - simpl. lia.
Qed.

Lemma run_mounts (l : list Action) :
  forall w,
    oneBinding w ->
    List.length (mounts (events (run split undef chain l w))) <=
    List.length (filter mayMount l).
Proof.
  induction l as [|a rest IH]; intros w Hone.
  - simpl. lia.
  - destruct (run_cons_events split undef chain a rest Hone) as [He _].
    destruct (step_keeps split undef chain a Hone) as (_ & Hone' & _).
    rewrite He, mounts_app, length_app.
    pose proof (step_mounts a Hone) as Hs.
    pose proof (IH _ Hone') as Hr.
    simpl. destruct (mayMount a); simpl; lia.
Qed.

(** X13. Along any run, every call of [connectLoader] and every message
    mounts at most once, and nothing else mounts: the number of mounts is at
    most the number of calls and messages, and a run of updates and
    [destroy]s alone mounts nothing. *)
Theorem mounts_bounded (l : list Action) :
  let evs := events (run split undef chain l init) in
  List.length (mounts evs) <= List.length (filter mayMount l) /\
  (forallb (fun a => negb (mayMount a)) l = true -> mounts evs = []).
Proof.
  cbn zeta. pose proof (run_mounts l oneBinding_init) as H.
  split; [exact H|]. intros Hn.
  assert (Hf : filter mayMount l = []).
  { clear H. induction l as [|a rest IH]; simpl in *; auto.
    apply andb_true_iff in Hn as [Ha Hr].
    destruct (mayMount a); [discriminate|auto]. }
  rewrite Hf in H. simpl in H.
  destruct (mounts (events (run split undef chain l init))); [reflexivity|].
  simpl in H. lia.
Qed.

End Further.

(** * The properties on the scenario *)

Import Scenario.

(** The scenario of the specification: bind, select, edit. *)
Example scenario_trace :
  go [CallConnectLoader args0;
      WindowMessage (select "Button" "default");
      WindowMessage (edit [("label", VString "Bye")])] =
  {| completion := Normal tt;
     world := {| unbindPrev := Some 0;
                 selected := Some ("Button", "default");
                 hasFixtureUpdate := true;
                 listeners := [0];
                 closures := [args0] |};
     events :=
       [AddEventListener 0;
        PostMessage (loaderReady [("Button", ["default"]); ("Widget", ["f1"])]);
        Mount 0 [] (VObject [("label", VString "Hi")]) 0;
        PostMessage (fixtureLoad [("label", VString "Hi")]);
        CallHook 7;
        Mount 0 [] (VObject [("label", VString "Bye")]) 0] |}.
Proof. reflexivity. Qed.

(** The merge of an edit on [{a: 1, b: 2, fn: F}] with [{b: 9}]. *)
Example applyFixturePart_example :
  same_props
    (merge [] [[("fn", VFunction 1)];
               spread [("a", VNumber 1); ("b", VNumber 2)] [("b", VNumber 9)]])
    [("a", VNumber 1); ("b", VNumber 9); ("fn", VFunction 1)].
Proof.
  intros k. simpl.
  destruct (String.eqb k "fn") eqn:E1;
    destruct (String.eqb k "a") eqn:E2;
    destruct (String.eqb k "b") eqn:E3; try reflexivity;
    apply String.eqb_eq in E1; subst k; discriminate.
Qed.

Lemma single_listener_witness :
  let r := go (map CallConnectLoader [args0; args1; args0]) in
  atMostOneListener [] (events r) = true /\
  listeners (world r) = [2] /\
  1 < 2 /\
  In (AddEventListener 1) (events r) /\
  In (RemoveEventListener 1) (events r) /\
  ~ In 1 (listeners (world r)).
Proof.
  destruct (single_listener splitUnserializableParts splitUndefined chain
              [] [args0; args1] args0) as (H1 & H2 & H3).
  split; [exact H1|]. split; [exact H2|]. split; [lia|].
  apply (H3 1). simpl. lia.
Defined.

Lemma rebind_resync_witness :
  unbindPrev (selecting "Button" "default") = Some 0 /\
  selected (selecting "Button" "default") = Some ("Button", "default") /\
  hasFixtureUpdate (selecting "Button" "default") = false /\
  registryEntry (fixtures args0) "Button" "default" =
    Some [("label", VString "Hi")] /\
  mounts (events (connectLoader splitUnserializableParts splitUndefined chain args0
                    (selecting "Button" "default"))) =
  [Mount 0 [] (VObject [("label", VString "Hi")]) 1].
Proof.
  do 4 (split; [reflexivity|]).
  destruct (rebind_resync splitUnserializableParts splitUndefined chain args0
              (selecting "Button" "default") (u := 0) eq_refl) as (H & _ & _).
  apply (H "Button" "default"); reflexivity.
Defined.

Lemma fixtureSelect_known_witness :
  let w := world (go [CallConnectLoader args0;
                      WindowMessage (select "Widget" "f1");
                      ContextUpdate [("state", VNumber 3)]]) in
  let r := onMessage splitUnserializableParts splitUndefined chain args0 0
             (select "Button" "default") w in
  hasFixtureUpdate w = true /\
  selected w = Some ("Widget", "f1") /\
  type (select "Button" "default") = "fixtureSelect" /\
  registryEntry (fixtures args0) "Button" "default" =
    Some [("label", VString "Hi")] /\
  r =
  {| completion := Normal tt;
     world := {| unbindPrev := Some 0;
                 selected := Some ("Button", "default");
                 hasFixtureUpdate := false;
                 listeners := [0]; closures := [args0] |};
     events := [Mount 0 [] (VObject [("label", VString "Hi")]) 0;
                PostMessage (fixtureLoad [("label", VString "Hi")]);
                CallHook 7] |} /\
  selected (world r) = Some ("Button", "default") /\
  hasFixtureUpdate (world r) = false.
Proof.
  cbn zeta. do 4 (split; [reflexivity|]).
  apply (fixtureSelect_known splitUnserializableParts splitUndefined chain
           args0 0 (select "Button" "default")
           (world (go [CallConnectLoader args0;
                       WindowMessage (select "Widget" "f1");
                       ContextUpdate [("state", VNumber 3)]])));
    reflexivity.
Defined.


Lemma bind_announcement_witness :
  nodupb (Props.keys (fixtures args0)) = true /\
  extractFixtureNames (fixtures args0) =
    [("Button", ["default"]); ("Widget", ["f1"])] /\
  exists rest,
    posted (events (connectLoader splitUnserializableParts splitUndefined chain args0
                      (world (go [CallConnectLoader args1])))) =
    fixtureListUpdate (extractFixtureNames (fixtures args0)) :: rest /\
    existsb isLoaderReady rest = false.
Proof.
  destruct (bind_announcement splitUnserializableParts splitUndefined chain
              [CallConnectLoader args1] args0) as (H1 & _ & _ & _ & H5).
  split; [reflexivity|]. split; [apply H5; reflexivity|]. exact H1.
Defined.

(** The message that C6 does not hold for, evaluated: the registry has no
    component [constructor]. *)
Example select_constructor_name :
  onMessage splitUnserializableParts splitUndefined chain args0 0
    (select "constructor" "name") (selecting "Button" "default") =
  {| completion := Normal tt;
     world := {| unbindPrev := Some 0;
                 selected := Some ("constructor", "name");
                 hasFixtureUpdate := false;
                 listeners := [0]; closures := [args0] |};
     events :=
       [Mount 0 [] (VString "Object") 0;
        PostMessage
          (fixtureLoad
             [("0", VString "O"); ("1", VString "b"); ("2", VString "j");
              ("3", VString "e"); ("4", VString "c"); ("5", VString "t")]);
        CallHook 7] |}.
Proof. reflexivity. Qed.

Lemma absent_select_selects_witness :
  let w := selecting "Button" "default" in
  let r := onMessage splitUnserializableParts splitUndefined chain args0 0
             (select "constructor" "name") w in
  type (select "constructor" "name") = "fixtureSelect" /\
  registryEntry (fixtures args0) "constructor" "name" = None /\
  Props.has (fixtures args0) "constructor" = false /\
  componentTruthy (readComponent chain (fixtures args0) "constructor") = true /\
  completion (lookupFixture chain (fixtures args0) "constructor" "name" w) =
    Normal (VString "Object") /\
  truthy (VString "Object") = true /\
  selected w = Some ("Button", "default") /\
  selected (world r) = Some ("constructor", "name") /\
  hasFixtureUpdate (world r) = false /\
  mounts (events r) = [Mount 0 [] (VString "Object") 0] /\
  consoleErrors (events r) = [].
Proof.
  cbn zeta. do 7 (split; [reflexivity|]).
  apply (absent_select_selects splitUnserializableParts splitUndefined chain
           args0 0 (select "constructor" "name")
           (selecting "Button" "default") (found := VString "Object"));
    reflexivity.
Defined.

(** C7, as stated, fails: nothing re-initializes the selection and
    [hasFixtureUpdate] when a binding is established.  A call of
    [connectLoader] that replaces an active binding installs a new listener
    and yet keeps the selection and the flag of the binding it replaces; and
    a first call after a [destroy] announces [loaderReady] with the flag as
    an update that arrived after the [destroy] has left it. *)
Lemma rebind_keeps_selection :
  let rebound := go [CallConnectLoader args0;
                     WindowMessage (select "Button" "default");
                     ContextUpdate [("state", VNumber 3)];
                     CallConnectLoader args0] in
  let bound_again := go [CallConnectLoader args0;
                         WindowMessage (select "Button" "default");
                         CallDestroy;
                         ContextUpdate [("state", VNumber 3)];
                         CallConnectLoader args0] in
  (listeners (world rebound) = [1] /\
   selected (world rebound) = Some ("Button", "default") /\
   hasFixtureUpdate (world rebound) = true) /\
  (listeners (world bound_again) = [1] /\
   last (posted (events bound_again)) (fixtureLoad []) =
     loaderReady [("Button", ["default"]); ("Widget", ["f1"])] /\
   hasFixtureUpdate (world bound_again) = true).
Proof. repeat split. Qed.

Lemma destroy_resets_witness :
  let w := selecting "Button" "default" in
  let r := connectLoader splitUnserializableParts splitUndefined chain args1
             (world (destroy w)) in
  unbindPrev w = Some 0 /\
  selected w = Some ("Button", "default") /\
  destroy w =
  {| completion := Normal tt;
     world := {| unbindPrev := None; selected := None;
                 hasFixtureUpdate := false; listeners := [];
                 closures := [args0] |};
     events := [RemoveEventListener 0] |} /\
  completion r = Normal destroy /\
  selected (world r) = None /\
  hasFixtureUpdate (world r) = false.
Proof.
  cbn zeta. do 2 (split; [reflexivity|]).
  destruct (destroy_resets splitUnserializableParts splitUndefined chain
              (selecting "Button" "default")) as (H1 & _ & _ & H4).
  split; [apply (H1 0); reflexivity|].
  apply (H4 args1 0). reflexivity.
Defined.

Lemma superseded_destroy_witness :
  let r1 := connectLoader splitUnserializableParts splitUndefined chain args0 init in
  let r2 := connectLoader splitUnserializableParts splitUndefined chain args1
              (world r1) in
  let w3 := world (run splitUnserializableParts splitUndefined chain
                     [WindowMessage (select "Widget" "f1");
                      ContextUpdate [("state", VNumber 3)]] (world r2)) in
  completion r1 = Normal destroy /\
  forallb isTraffic [WindowMessage (select "Widget" "f1");
                     ContextUpdate [("state", VNumber 3)]] = true /\
  selected w3 = Some ("Widget", "f1") /\
  destroy w3 =
  {| completion := Normal tt;
     world := {| unbindPrev := None; selected := None;
                 hasFixtureUpdate := false; listeners := [];
                 closures := [args0; args1] |};
     events := [RemoveEventListener 1] |}.
Proof.
  split; [reflexivity|]. split; [reflexivity|]. split; [reflexivity|].
  destruct (superseded_destroy splitUnserializableParts splitUndefined chain
              args0 args1 init (destroy1 := destroy)
              [WindowMessage (select "Widget" "f1");
               ContextUpdate [("state", VNumber 3)]] eq_refl eq_refl)
    as (_ & _ & _ & H & _).
  exact H.
Defined.



(** ** The further properties on the scenario *)

Import Examples.

Lemma selection_needs_binding_witness :
  let l := [CallConnectLoader args0;
            WindowMessage (select "Button" "default")] in
  selected (world (go l)) = Some ("Button", "default") /\
  bindingActive l = true /\
  exists u, unbindPrev (world (go l)) = Some u /\ listeners (world (go l)) = [u].
Proof.
  cbn zeta. split; [reflexivity|].
  apply (proj1 (selection_needs_binding splitUnserializableParts
                  splitUndefined chain
                  [CallConnectLoader args0;
                   WindowMessage (select "Button" "default")])
           "Button" "default").
  reflexivity.
Defined.

Lemma message_without_binding_witness :
  let l := [CallConnectLoader args0;
            WindowMessage (select "Button" "default"); CallDestroy] in
  bindingActive l = false /\
  step splitUnserializableParts splitUndefined chain
    (WindowMessage (select "Button" "default")) (world (go l)) =
  {| completion := Normal tt; world := world (go l); events := [] |}.
Proof.
  cbn zeta. split; [reflexivity|].
  apply (message_without_binding splitUnserializableParts splitUndefined chain
           [CallConnectLoader args0;
            WindowMessage (select "Button" "default"); CallDestroy]).
  reflexivity.
Defined.

Lemma message_to_latest_call_witness :
  let traffic := [ContextUpdate [("state", VNumber 3)]] in
  let w := world (go ([CallConnectLoader args0] ++
                      CallConnectLoader args1 :: traffic)) in
  forallb isTraffic traffic = true /\
  listeners w = [1] /\
  nth_error (closures w) 1 = Some args1 /\
  step splitUnserializableParts splitUndefined chain
    (WindowMessage (select "Button" "default")) w =
  detached (onMessage splitUnserializableParts splitUndefined chain args1 1
              (select "Button" "default")) w.
Proof.
  cbn zeta. split; [reflexivity|].
  apply (message_to_latest_call splitUnserializableParts splitUndefined chain
           [CallConnectLoader args0] [ContextUpdate [("state", VNumber 3)]]
           args1 (select "Button" "default")).
  reflexivity.
Defined.

Lemma rebind_resync_events_witness :
  let w := selecting "Button" "default" in
  let r := connectLoader splitUnserializableParts splitUndefined chain args0 w in
  unbindPrev w = Some 0 /\
  selected w = Some ("Button", "default") /\
  hasFixtureUpdate w = false /\
  registryEntry (fixtures args0) "Button" "default" =
    Some [("label", VString "Hi")] /\
  completion r = Normal destroy /\
  events r =
  [RemoveEventListener 0; AddEventListener 1;
   PostMessage (fixtureListUpdate [("Button", ["default"]); ("Widget", ["f1"])]);
   Mount 0 [] (VObject [("label", VString "Hi")]) 1;
   PostMessage (fixtureLoad [("label", VString "Hi")])].
Proof.
  cbn zeta. do 4 (split; [reflexivity|]).
  apply (rebind_resync_events splitUnserializableParts splitUndefined chain args0
           (selecting "Button" "default") (u := 0)
           (c := "Button") (f := "default")); reflexivity.
Defined.

Lemma edits_do_not_accumulate_witness :
  let w := selecting "Widget" "f1" in
  let first := edit [("b", VNumber 9)] in
  let second := edit [("a", VNumber 5)] in
  let w1 := world (onMessage splitUnserializableParts splitUndefined chain args0 0
                     first w) in
  type first = "fixtureEdit" /\
  type second = "fixtureEdit" /\
  selected w = Some ("Widget", "f1") /\
  registryEntry (fixtures args0) "Widget" "f1" = Some widget /\
  events (onMessage splitUnserializableParts splitUndefined chain args0 0 second w1) =
  [Mount 0 [] (VObject [("fn", VFunction 1); ("a", VNumber 5); ("b", VNumber 2)])
     0].
Proof.
  cbn zeta. do 4 (split; [reflexivity|]).
  apply (proj2 (edits_do_not_accumulate splitUnserializableParts
                  splitUndefined chain args0 0
                  (edit [("b", VNumber 9)]) (edit [("a", VNumber 5)])
                  (selecting "Widget" "f1") (c := "Widget") (f := "f1")
                  (fx := widget) eq_refl eq_refl eq_refl eq_refl)).
Defined.

Lemma edit_value_wins_witness :
  let body := [("fn", VNumber 5)] in
  wf_obj (serializable (splitUnserializableParts widget)) = true /\
  wf_obj body = true /\
  Props.get body "fn" = Some (VNumber 5) /\
  atomic (VNumber 5) = true /\
  Props.has (unserializable (splitUnserializableParts widget)) "fn" = true /\
  Props.get (edited (splitUnserializableParts widget) body) "fn" =
  Some (VNumber 5).
Proof.
  cbn zeta. do 5 (split; [reflexivity|]).
  apply (@edit_value_wins splitUnserializableParts splitUndefined chain
           widget [("fn", VNumber 5)] _ init "fn" (VNumber 5));
    reflexivity.
Defined.

Lemma edit_undefined_keeps_unserializable_witness :
  let body := [("fn", VUndefined)] in
  wf_obj (unserializable (splitUnserializableParts widget)) = true /\
  wf_obj (serializable (splitUnserializableParts widget)) = true /\
  wf_obj body = true /\
  Props.has (unserializable (splitUnserializableParts widget)) "fn" = true /\
  Props.get body "fn" = Some VUndefined /\
  Props.get (edited (splitUnserializableParts widget) body) "fn" =
  Some (VFunction 1).
Proof.
  cbn zeta. do 5 (split; [reflexivity|]).
  apply (@edit_undefined_keeps_unserializable splitUnserializableParts
           splitUndefined chain widget [("fn", VUndefined)] _ init "fn");
    reflexivity.
Defined.

Lemma empty_edit_restores_witness :
  wf_obj (unserializable (splitUnserializableParts widget)) = true /\
  wf_obj (serializable (splitUnserializableParts widget)) = true /\
  same_props (edited (splitUnserializableParts widget) []) widget.
Proof.
  do 2 (split; [reflexivity|]).
  apply (@empty_edit_restores splitUnserializableParts splitUndefined chain
           widget _ init); try reflexivity.
  - intros k. unfold Props.has. simpl.
    destruct (String.eqb k "fn") eqn:E; [|discriminate].
    apply String.eqb_eq in E. subst k. reflexivity.
  - intros k. simpl.
    destruct (String.eqb k "a"); [reflexivity|].
    destruct (String.eqb k "b"); reflexivity.
Defined.

Lemma edit_merges_nested_witness :
  let body := [("props", VObject [("x", VNumber 9)])] in
  wf_obj (unserializable (splitUnserializableParts panel)) = true /\
  wf_obj (serializable (splitUnserializableParts panel)) = true /\
  wf_obj body = true /\
  Props.get (unserializable (splitUnserializableParts panel)) "props" =
    Some (VObject [("onClick", VFunction 2); ("x", VNumber 2)]) /\
  exists mo,
    Props.get (edited (splitUnserializableParts panel) body) "props" =
      Some (VObject mo) /\
    (forall j, Props.has [("x", VNumber 9)] j = false ->
               Props.get mo j =
               Props.get [("onClick", VFunction 2); ("x", VNumber 2)] j) /\
    (forall j v, Props.get [("x", VNumber 9)] j = Some v -> atomic v = true ->
                 Props.get mo j = Some v).
Proof.
  cbn zeta. do 4 (split; [reflexivity|]).
  apply (@edit_merges_nested splitUnserializableParts splitUndefined chain
           panel [("props", VObject [("x", VNumber 9)])] _ _ _ init
           "props"); reflexivity.
Defined.

Lemma onMessage_effects_bounded_witness :
  let evs := events (onMessage splitUnserializableParts splitUndefined chain args0 0
                       (select "Button" "default") init) in
  In (CallHook 7) evs /\
  type (select "Button" "default") = "fixtureSelect" /\
  dismissRuntimeErrors args0 = Some 7.
Proof.
  cbn zeta. split; [simpl; auto|].
  apply (onMessage_effects_bounded splitUnserializableParts splitUndefined chain
           args0 0 (select "Button" "default") init).
  simpl. auto.
Defined.
